(** * Folksonomy: tag index, co-occurrence table, related rankings, tag clouds

    A shallow embedding of [folksonomy.py] (a PyBlosxom plugin, Python 2) and
    the properties of its tag index, its triangular co-occurrence table, the
    related-tags and related-stories rankings and the two tag clouds.

    Python values are modelled as follows.
    - [str] is [string]; comparison of [str] is byte-wise lexicographic,
      which is [String.compare].
    - [int] is [Z]; [/] on [int] is Python 2 floor division, [Z.div].
    - a [dict] is a [gmap]; its iteration order ([keys()], [values()]) is the
      order of [map_to_list], which the code never relies on.
    - a [set] is a [gset]; [list(s)] enumerates it in an order the language
      leaves open, so the enumeration is a parameter of the development,
      constrained only to list the elements of the set once each.
    - a [list] is a [list]; [l[i]] out of range raises [IndexError].
    - exceptions are the [Raise] outcomes of the [result] type; the lines
      printed to [sys.stderr] are collected in a log. *)

From Stdlib Require Import ZArith Ascii.
From stdpp Require Import base option list sorting gmap strings pretty.

Local Open Scope Z_scope.

(** ** Exceptions *)

Inductive exn : Type := IndexError | KeyError | ValueError.

Inductive result (A : Type) : Type :=
  | Ok (a : A)
  | Raise (e : exn).
Arguments Ok {A} a.
Arguments Raise {A} e.

#[global] Instance result_ret : MRet result := λ A a, Ok a.
#[global] Instance result_bind : MBind result := λ A B f m,
  match m with Ok a => f a | Raise e => Raise e end.

(** [l[i]] for a non-negative index. *)
Definition list_get {A} (l : list A) (i : nat) : result A :=
  match l !! i with Some a => Ok a | None => Raise IndexError end.

(** [d[k]]. *)
Definition dict_get {A} (d : gmap string A) (k : string) : result A :=
  match d !! k with Some a => Ok a | None => Raise KeyError end.

(** Code that also prints to [sys.stderr]: the lines printed so far and
    the outcome. *)
Record io (A : Type) : Type := IO { stderr : list string; outcome : result A }.
Arguments IO {A} stderr outcome.
Arguments stderr {A} i.
Arguments outcome {A} i.

#[global] Instance io_ret : MRet io := λ A a, IO [] (Ok a).
#[global] Instance io_bind : MBind io := λ A B f m,
  match outcome m with
  | Ok a => IO (stderr m ++ stderr (f a)) (outcome (f a))
  | Raise e => IO (stderr m) (Raise e)
  end.

(** [print >>sys.stderr, line]. *)
Definition print_stderr (line : string) : io unit := IO [line] (Ok ()).

(** Code that prints nothing, run inside code that may print. *)
Definition quiet {A} (r : result A) : io A := IO [] r.

(** [for a in l: s = f(s, a)], stopping at the first exception. *)
Fixpoint for_each {M : Type → Type} `{!MBind M, !MRet M} {A S : Type}
    (f : S → A → M S) (l : list A) (s : S) : M S :=
  match l with
  | [] => mret s
  | a :: l => s' ← f s a; for_each f l s'
  end.

(** ** Built-in functions *)

(** [len(l)]. *)
Definition len {A} (l : list A) : Z := Z.of_nat (length l).

(** [s.split(',')]: never empty, [''.split(',') == ['']]. *)
Fixpoint split_comma (s : string) : list string :=
  match s with
  | EmptyString => [EmptyString]
  | String c s' =>
      if Ascii.eqb c ","%char then EmptyString :: split_comma s'
      else match split_comma s' with
           | w :: ws => String c w :: ws
           | [] => [String c EmptyString]
           end
  end.

(** [d.keys()] and [d.values()]. *)
Definition keys {A} (d : gmap string A) : list string := (map_to_list d).*1.
Definition values {A} (d : gmap string A) : list A := (map_to_list d).*2.

(** [l.index(x)]: the first position of [x], [ValueError] when absent. *)
Definition py_index (x : string) (l : list string) : result nat :=
  match list_find (λ y, y = x) l with
  | Some (i, _) => Ok i
  | None => Raise ValueError
  end.

(** [min(l)] on integers: [ValueError] on the empty sequence. *)
Definition py_min (l : list Z) : result Z :=
  match l with
  | [] => Raise ValueError
  | x :: l => Ok (foldl Z.min x l)
  end.

(** *** Orders used by [sort] *)

Definition str_le (a b : string) : Prop := Is_true (String.leb a b).

(** Lists of strings compare lexicographically. *)
Fixpoint strs_compare (a b : list string) : comparison :=
  match a, b with
  | [], [] => Eq
  | [], _ :: _ => Lt
  | _ :: _, [] => Gt
  | x :: a, y :: b =>
      match String.compare x y with
      | Eq => strs_compare a b
      | c => c
      end
  end.

(** Tuples compare lexicographically. *)
Definition pair_compare (a b : Z * string) : comparison :=
  match Z.compare a.1 b.1 with
  | Eq => String.compare a.2 b.2
  | c => c
  end.

Definition triple_compare (a b : Z * list string * string) : comparison :=
  match Z.compare a.1.1 b.1.1 with
  | Eq => match strs_compare a.1.2 b.1.2 with
          | Eq => String.compare a.2 b.2
          | c => c
          end
  | c => c
  end.

Definition not_gt (c : comparison) : bool :=
  match c with Gt => false | _ => true end.

Definition pair_ge (a b : Z * string) : Prop :=
  Is_true (not_gt (pair_compare b a)).
Definition triple_ge (a b : Z * list string * string) : Prop :=
  Is_true (not_gt (triple_compare b a)).

(** [l.sort()] on strings, [l.sort(reverse=True)] on tuples. *)
Definition sort_strs (l : list string) : list string := merge_sort str_le l.
Definition sort_pairs_desc (l : list (Z * string)) : list (Z * string) :=
  merge_sort pair_ge l.
Definition sort_triples_desc (l : list (Z * list string * string))
    : list (Z * list string * string) :=
  merge_sort triple_ge l.

(** [os.path.join(a, b)] on POSIX paths. *)
Definition starts_with_slash (s : string) : bool :=
  match s with
  | String c _ => Ascii.eqb c "/"%char
  | EmptyString => false
  end.

Fixpoint ends_with_slash (s : string) : bool :=
  match s with
  | EmptyString => false
  | String c EmptyString => Ascii.eqb c "/"%char
  | String _ s' => ends_with_slash s'
  end.

Definition path_join (a b : string) : string :=
  if starts_with_slash b then b
  else if bool_decide (a = "") || ends_with_slash a then a +:+ b
  else a +:+ "/" +:+ b.

(** ** Data *)

(** The configuration dictionary as the functions below [cb_start] and
    [build_folksonomy] read it. A key that may be missing when it is read is
    optional: [ignore_tags], [taggable_files] and [tag_url_display], which the
    plugin tests with [in], and [base_url] and [relatedstories_header], which
    it reads without a test, so that reading them can raise [KeyError].
    [datadir] is the data directory PyBlosxom runs on, and [tag_url] is set by
    [cb_start] and [build_folksonomy] before anything reads it.
    [ignore_directories] is the list [create_folksonomy] reads before the
    walk; the dictionary in which this key may be missing is [site_config],
    and the read that can raise [KeyError] is in [site_create_folksonomy]. *)
Record config : Type := {
  ignore_tags : option (list string);
  ignore_directories : list string;
  taggable_files : option (list string);
  datadir : string;
  base_url : option string;
  tag_url : string;
  tag_url_display : option string;
  relatedstories_header : option string
}.

(** [config[key]] for a key that may be missing. *)
Definition config_get {A} (v : option A) : result A :=
  match v with Some a => Ok a | None => Raise KeyError end.

(** One file met by [os.walk(config['datadir'])], with what the indexing
    loop reads of it: [os.path.splitext(file)[1].strip('.')], the name of its
    directory [os.path.split(os.path.dirname(entry_location))[1]], the
    location [root + "/" + file], and the text that follows [#tags] on the
    tags line of its contents (group 1 of the regular expression), if the
    contents have such a line. *)
Record item : Type := {
  item_ext : string;
  item_dir : string;
  item_location : string;
  item_tags : option string
}.

(** The entry being rendered: its [tags] and [filename] metadata and the
    optional [related] line. *)
Record entry : Type := {
  entry_tags : string;
  entry_filename : string;
  entry_related : option string
}.

(** What the plugin reads of a [Pyblosxom.entries.fileentry.FileEntry]. *)
Record file_entry : Type := {
  fe_filename : string;
  fe_absolute_path : string;
  fe_fn : string;
  fe_title : string
}.

(** [folksonomytable]: row [x] holds the cells [(x, 0) .. (x, x)]. *)
Abbreviation table := (list (list (list string))).

(** The dictionary built by [create_folksonomy] and merged into the request
    data; [None] stands for Python's [None]. *)
Record folksonomy_data : Type := {
  entrytagmap : gmap string (list string);
  sortedtags : list string;
  folksonomy : table;
  tagcloud : option string;
  populartagcloud : option string
}.

Section folksonomy.

(** [list(s)] for a set [s] of entry locations. *)
Variable set_to_list : gset string → list string.

(** [entries.fileentry.FileEntry(request, entry_location, root)], after
    [getData()]. *)
Variable FileEntry : string → file_entry.

(** ** The co-occurrence table *)

(** [list(set(xs).intersection(set(ys)))]. *)
Definition intersection (xs ys : list string) : list string :=
  set_to_list (list_to_set xs ∩ list_to_set ys).

(** [entrymap[taglist[x]]]. *)
Definition entries_at (entrymap : gmap string (list string))
    (taglist : list string) (x : nat) : result (list string) :=
  tag ← list_get taglist x; dict_get entrymap tag.

(** [folksonomytable[x].append(cell)]. *)
Definition table_append (t : table) (x : nat) (cell : list string)
    : result table :=
  row ← list_get t x; Ok (<[x := row ++ [cell]]> t).

(** The body of the inner loop of [create_folksonomy_table]. *)
Definition table_step (entrymap : gmap string (list string))
    (taglist : list string) (y : nat) (t : table) (x : nat) : result table :=
  if decide (x = y) then
    ex ← entries_at entrymap taglist x;
    table_append t x ex
  else
    ex ← entries_at entrymap taglist x;
    ey ← entries_at entrymap taglist y;
    table_append t x (intersection ex ey).

Definition create_folksonomy_table (entrymap : gmap string (list string))
    : result table :=
  let taglist := sort_strs (keys entrymap) in
  let n := length taglist in
  for_each
    (λ t y, for_each (table_step entrymap taglist y) (seq y (n - y)) t)
    (seq 0 n) (replicate n []).

(** ** Related tags and related stories *)

(** The cell read for the pair (requested tag, tag [t] of the loop), as in
    [_get_related_tags] and [_get_related_stories]. *)
Definition shared (folksonomy : table) (tagindex position : nat)
    : result (list string) :=
  if decide (tagindex ≤ position)%nat then
    row ← list_get folksonomy position; list_get row tagindex
  else if decide (position < tagindex)%nat then
    row ← list_get folksonomy tagindex; list_get row position
  else Ok [].

Definition _get_related_tags (tag : string) (data : folksonomy_data)
    : io (list (Z * string)) :=
  if bool_decide (tag ∉ sortedtags data) then
    _ ← print_stderr ("ERROR: " +:+ tag +:+ " not in sortedtags.");
    mret []
  else quiet (
    tagindex ← py_index tag (sortedtags data);
    relationship ← for_each (λ relationship t,
        position ← py_index t (sortedtags data);
        entries ← shared (folksonomy data) tagindex position;
        Ok (if bool_decide (entries ≠ [])
            then relationship ++ [(len entries, t)]
            else relationship))
      (sortedtags data) [];
    Ok (sort_pairs_desc relationship)).

Definition get_related_tags (e : entry) (data : folksonomy_data)
    (cfg : config) : io (list string) :=
  ignoretags ← quiet (config_get (ignore_tags cfg));
  let tags := split_comma (entry_tags e) in
  related ← for_each (λ related tag,
      if bool_decide (tag ∈ ignoretags) then mret related
      else
        tmp ← _get_related_tags tag data;
        mret (if bool_decide (tmp ≠ []) then related ++ tmp else related))
    tags [];
  let related := sort_pairs_desc related in
  mret ((filter (λ x, 1 < x.1) related).*2).

Definition _get_related_stories (tag : string) (data : folksonomy_data)
    : result (list (string * list string)) :=
  if bool_decide (tag ∉ sortedtags data) then Ok []
  else
    tagindex ← py_index tag (sortedtags data);
    relationship ← for_each (λ relationship t,
        position ← py_index t (sortedtags data);
        entries ← shared (folksonomy data) tagindex position;
        Ok (if bool_decide (entries ≠ [])
            then relationship ++ [(len entries, entries, t)]
            else relationship))
      (sortedtags data) [];
    Ok ((λ r, (r.2, r.1.2)) <$> sort_triples_desc relationship).

(** One vote for [story]. *)
Definition vote (related : gmap string (Z * string)) (story : string)
    : gmap string (Z * string) :=
  match related !! story with
  | Some r => <[story := (r.1 + 1, story)]> related
  | None => <[story := (1, story)]> related
  end.

(** The first loop of [get_related_stories]: the votes of the stories. The
    test [if tmp:] guards a loop that does nothing on the empty list. *)
Definition related_votes (tags ignoretags : list string)
    (data : folksonomy_data) : result (gmap string (Z * string)) :=
  for_each (λ related tag,
      if bool_decide (tag ∈ ignoretags) then Ok related
      else
        tmp ← _get_related_stories tag data;
        Ok (foldl (λ related relationship,
                if bool_decide (relationship.1 ∉ tags) then related
                else foldl vote related relationship.2)
              related tmp))
    tags ∅.

(** [myentries] as read from the [related] line of the entry. *)
Definition forced_entries (e : entry) (cfg : config) : list string :=
  match entry_related e with
  | Some r => path_join (datadir cfg) <$> split_comma r
  | None => []
  end.

(** [myentries] after the ranked stories were appended and the list cut. *)
Definition related_entries (forced : list string)
    (related : gmap string (Z * string)) : list string :=
  let related := sort_pairs_desc (values related) in
  let myentries := forced ++ related.*2 in
  take (Z.to_nat (Z.min (len myentries) 6)) myentries.

(** The link of one story; [config['base_url']] is read here. *)
Definition story_link (cfg : config) (tmpentry : file_entry)
    : result string :=
  base ← config_get (base_url cfg);
  Ok ("<a href='" +:+ base +:+ "/" +:+ fe_absolute_path tmpentry +:+ "/"
        +:+ fe_fn tmpentry +:+ "'>" +:+ fe_title tmpentry +:+ "</a>").

(** The loop that writes [relatedstories]. *)
Definition render_stories (e : entry) (cfg : config)
    (myentries : list string) : result string :=
  for_each (λ relatedstories entry_location,
      let tmpentry := FileEntry entry_location in
      if bool_decide (fe_filename tmpentry = entry_filename e)
      then Ok relatedstories
      else
        link ← story_link cfg tmpentry;
        Ok (relatedstories +:+ String "010" (link +:+ "<br/>")))
    myentries "".

Definition get_related_stories (e : entry) (data : folksonomy_data)
    (cfg : config) : result (option string) :=
  ignoretags ← config_get (ignore_tags cfg);
  let tags := split_comma (entry_tags e) in
  related ← related_votes tags ignoretags data;
  let myentries := forced_entries e cfg in
  if bool_decide (related ≠ ∅) then
    let myentries := related_entries myentries related in
    if bool_decide (myentries ≠ []) then
      relatedstories ← render_stories e cfg myentries;
      if bool_decide (relatedstories ≠ "") then
        header ← config_get (relatedstories_header cfg);
        Ok (Some ("<div id='relatedstories'>" +:+ header
                    +:+ "<p>" +:+ relatedstories +:+ "</p></div>"))
      else Ok None
    else Ok None
  else Ok None.

(** ** Tag clouds *)

(** The size chosen for one tag in the loop of [create_tagcloud]. *)
Definition size_class (tag : string) (count mincount maxcount : Z) : string :=
  let distribution := (maxcount - mincount) / 6 in
  if bool_decide (tag ≠ "untagged") then
    if bool_decide (count = maxcount) then "mostHugeTag"
    else if bool_decide (count > mincount + distribution * 5) then "hugestTag"
    else if bool_decide (count > mincount + distribution * 4) then "hugeTag"
    else if bool_decide (count > mincount + distribution * 3) then "biggestTag"
    else if bool_decide (count > mincount + distribution * 2) then "bigTag"
    else if bool_decide (count > mincount + distribution) then "mediumTag"
    else if bool_decide (count > mincount) then "smallTag"
    else if bool_decide (count = mincount) then "smallestTag"
    else "mediumTag"
  else "mediumTag".

(** The anchor appended for one tag. *)
Definition cloud_anchor (tagurl tag size : string) (count : Z) : string :=
  "<a href='" +:+ tagurl +:+ tag +:+ "' class='" +:+ size
    +:+ "' title='There are " +:+ pretty count
    +:+ String "010" ("entries tagged " +:+ tag +:+ "'>" +:+ tag
    +:+ "</a>" +:+ String "010" "").

(** The tags of a cloud with their sizes and counts, in the order of the
    loop over [tagcount.keys()]. *)
Definition cloud_entries (tagcount : gmap string (list string))
    (mincount maxcount : Z) : list (string * string * Z) :=
  (λ kv, (kv.1, size_class kv.1 (len kv.2) mincount maxcount, len kv.2))
    <$> map_to_list tagcount.

Definition create_tagcloud (cfg : config)
    (tagcount : gmap string (list string)) (mincount maxcount : Z)
    : option string :=
  if bool_decide (tagcount ≠ ∅) then
    let tagurl := default (tag_url cfg) (tag_url_display cfg) in
    let tagcloud :=
      ["<div id='tagcloud'>"]
      ++ ((λ c, cloud_anchor tagurl c.1.1 c.1.2 c.2)
            <$> cloud_entries tagcount mincount maxcount)
      ++ ["</div>"] in
    Some (foldr String.append "" tagcloud)
  else None.

(** The body of the loop of [create_popular_tagcloud], on [popcount] and
    [popmin]. *)
Definition popular_step (mincount distribution : Z)
    (st : gmap string (list string) * Z) (kv : string * list string)
    : gmap string (list string) * Z :=
  let count := len kv.2 in
  if bool_decide (count > mincount + distribution)
  then (<[kv.1 := kv.2]> st.1, Z.min st.2 count)
  else st.

(** [popcount] and [popmin] after the loop. *)
Definition popular_tags (tagcount : gmap string (list string))
    (mincount maxcount : Z) : gmap string (list string) * Z :=
  let distribution := (maxcount - mincount) / 6 in
  foldl (popular_step mincount distribution) (∅, maxcount)
    (map_to_list tagcount).

Definition create_popular_tagcloud (cfg : config)
    (tagcount : gmap string (list string)) (mincount maxcount : Z)
    : option string :=
  let pop := popular_tags tagcount mincount maxcount in
  create_tagcloud cfg pop.1 pop.2 maxcount.

(** ** Building the index *)

(** [if not tag in entrymap.keys(): entrymap[tag] = []]. *)
Definition ensure_tag (tag : string) (entrymap : gmap string (list string))
    : gmap string (list string) :=
  if bool_decide (tag ∉ keys entrymap) then <[tag := []]> entrymap
  else entrymap.

(** [entrymap[tag].append(entry_location)], for a tag that is present. *)
Definition append_entry (tag entry_location : string)
    (entrymap : gmap string (list string)) : gmap string (list string) :=
  alter (λ l, l ++ [entry_location]) tag entrymap.

(** The body of the loop over the tags of one file. *)
Definition index_tag (ignoretags : list string) (entry_location : string)
    (st : gmap string (list string) * Z) (tag : string)
    : gmap string (list string) * Z :=
  if bool_decide (tag ∈ ignoretags) then st
  else
    let entrymap := append_entry tag entry_location (ensure_tag tag st.1) in
    (entrymap, Z.max st.2 (len (default [] (entrymap !! tag)))).

(** The body of the loop over the files. *)
Definition index_item (cfg : config) (st : gmap string (list string) * Z)
    (it : item) : gmap string (list string) * Z :=
  let ignoretags := default [] (ignore_tags cfg) in
  let tagfileswithext := default ["txt"] (taggable_files cfg) in
  if bool_decide (item_ext it ∉ tagfileswithext) then st
  else if bool_decide (item_dir it ∈ ignore_directories cfg) then st
  else match item_tags it with
       | Some tagstring =>
           foldl (index_tag ignoretags (item_location it)) st
             (split_comma tagstring)
       | None =>
           (append_entry "untagged" (item_location it)
              (ensure_tag "untagged" st.1), st.2)
       end.

(** [entrymap] and [maxcount] after the walk. *)
Definition build_index (cfg : config) (corpus : list item)
    : gmap string (list string) * Z :=
  foldl (index_item cfg) (∅, 0) corpus.

Definition create_folksonomy (cfg : config) (corpus : list item)
    : result folksonomy_data :=
  let '(entrymap, maxcount) := build_index cfg corpus in
  mincount ← py_min (len <$> values entrymap);
  let sortedtags := sort_strs (keys entrymap) in
  folksonomy ← create_folksonomy_table entrymap;
  Ok {| entrytagmap := entrymap;
        sortedtags := sortedtags;
        folksonomy := folksonomy;
        tagcloud := create_tagcloud cfg entrymap mincount maxcount;
        populartagcloud :=
          create_popular_tagcloud cfg entrymap mincount maxcount |}.

End folksonomy.

(** ** Reference definitions for the statements *)

(** The entry list of the tag at position [x] of [taglist]. *)
Definition tag_entries (entrymap : gmap string (list string))
    (taglist : list string) (x : nat) : list string :=
  default [] (taglist !! x ≫= λ tag, entrymap !! tag).

(** The cell that belongs at row [x], column [y]. *)
Definition cell_of (set_to_list : gset string → list string)
    (entrymap : gmap string (list string)) (taglist : list string)
    (x y : nat) : list string :=
  if decide (x = y) then tag_entries entrymap taglist x
  else intersection set_to_list (tag_entries entrymap taglist x)
         (tag_entries entrymap taglist y).

(** The table whose row [x] holds its first [f x] cells. *)
Definition rows (set_to_list : gset string → list string)
    (entrymap : gmap string (list string)) (taglist : list string)
    (f : nat → nat) : table :=
  (λ x, cell_of set_to_list entrymap taglist x <$> seq 0 (f x))
    <$> seq 0 (length taglist).

(** Row lengths while the outer loop is at [y] and the inner loop has
    handled the rows below [m]. *)
Definition filled (y m x : nat) : nat :=
  if decide (y ≤ x < m)%nat then S y else (S x `min` y)%nat.

(** The data hold the sorted tags and the table of their own tag index, as
    after [create_folksonomy] or after loading what it wrote to the cache. *)
Definition consistent (set_to_list : gset string → list string)
    (data : folksonomy_data) : Prop :=
  sortedtags data = sort_strs (keys (entrytagmap data)) ∧
  create_folksonomy_table set_to_list (entrytagmap data)
  = Ok (folksonomy data).

(** The number of entries two tags share; for a tag and itself, the number
    of entries filed under it. *)
Definition common (entrymap : gmap string (list string)) (t u : string) : Z :=
  let et := default [] (entrymap !! t) in
  let eu := default [] (entrymap !! u) in
  if decide (t = u) then len et
  else Z.of_nat (size (list_to_set et ∩ list_to_set eu : gset string)).

(** What the tag [u] contributes to the ranking of the tag [t]. *)
Definition related_pair (entrymap : gmap string (list string))
    (t u : string) : list (Z * string) :=
  if bool_decide (common entrymap t u ≠ 0) then [(common entrymap t u, u)]
  else [].

(** The ranking of one tag of the index. *)
Definition related_pairs (entrymap : gmap string (list string))
    (t : string) : list (Z * string) :=
  sort_pairs_desc (sort_strs (keys entrymap) ≫= related_pair entrymap t).

(** The line printed for a tag that is not in [sortedtags]. *)
Definition not_in_sortedtags (tag : string) : string :=
  "ERROR: " +:+ tag +:+ " not in sortedtags.".

(** The related tags of an entry, from the tag index alone. *)
Definition related_tags_of (entrymap : gmap string (list string))
    (tags ignoretags : list string) : list string :=
  let related :=
    tags ≫= λ tag,
      if bool_decide (tag ∈ ignoretags) then []
      else if bool_decide (tag ∈ sort_strs (keys entrymap))
           then related_pairs entrymap tag
           else [] in
  (filter (λ x, 1 < x.1) (sort_pairs_desc related)).*2.

(** The lines printed while the related tags of an entry are computed. *)
Definition related_tags_log (entrymap : gmap string (list string))
    (tags ignoretags : list string) : list string :=
  tags ≫= λ tag,
    if bool_decide (tag ∈ ignoretags) then []
    else if bool_decide (tag ∈ sort_strs (keys entrymap)) then []
         else [not_in_sortedtags tag].

(** The pairs behind the related tags of an entry: for each tag [t] of the
    entry, in each of its occurrences, that is not ignored and is in the
    index, one pair for each tag [u] of the index sharing more than one
    entry with [t]. *)
Definition related_tag_pairs (entrymap : gmap string (list string))
    (tags ignoretags : list string) : list (Z * string) :=
  filter (λ t, (t ∉ ignoretags) ∧ is_Some (entrymap !! t)) tags
    ≫= λ t,
      (λ u, (common entrymap t u, u))
        <$> filter (λ u, 1 < common entrymap t u) (sort_strs (keys entrymap)).

(** A file passes the two tests that open the indexing loop. *)
Definition eligible (cfg : config) (it : item) : Prop :=
  item_ext it ∈ default ["txt"] (taggable_files cfg) ∧
  item_dir it ∉ ignore_directories cfg.

(** The tags of a tags line that are not ignored. *)
Definition effective_tags (cfg : config) (tagstring : string) : list string :=
  filter (λ tag, tag ∉ default [] (ignore_tags cfg)) (split_comma tagstring).

(** What one file adds to the entry list of [tag]. *)
Definition filed (cfg : config) (tag : string) (it : item) : list string :=
  if decide (eligible cfg it) then
    match item_tags it with
    | Some tagstring =>
        (λ _, item_location it)
          <$> filter (λ t, t = tag) (effective_tags cfg tagstring)
    | None => if decide (tag = "untagged") then [item_location it] else []
    end
  else [].

(** A dictionary entry exists only for a non-empty list. *)
Definition nonempty {A} (l : list A) : option (list A) :=
  match l with [] => None | _ => Some l end.

(** A configuration that ignores the tag [draft], a file whose only tag is
    [draft], and the entry of that file with a forced relation. *)
Definition draft_config : config :=
  {| ignore_tags := Some ["draft"];
     ignore_directories := [];
     taggable_files := None;
     datadir := "/blog";
     base_url := Some "http://example.org";
     tag_url := "http://example.org/tags/";
     tag_url_display := None;
     relatedstories_header := Some "<h3>Related</h3>" |}.

Definition draft_item : item :=
  {| item_ext := "txt"; item_dir := "blog";
     item_location := "/blog/x.txt"; item_tags := Some "draft" |}.

Definition draft_entry : entry :=
  {| entry_tags := "draft"; entry_filename := "/blog/x.txt";
     entry_related := Some "general/y.txt" |}.

(** The size classes of the specification and the CSS class of each. *)
Inductive sizeclass : Type :=
  | mostHuge | hugest | huge | biggest | big | medium | small | smallest.

#[global] Instance sizeclass_eq_dec : EqDecision sizeclass.
Proof. solve_decision. Defined.

Definition class_name (s : sizeclass) : string :=
  match s with
  | mostHuge => "mostHugeTag"
  | hugest => "hugestTag"
  | huge => "hugeTag"
  | biggest => "biggestTag"
  | big => "bigTag"
  | medium => "mediumTag"
  | small => "smallTag"
  | smallest => "smallestTag"
  end.

(** The thresholds as the specification lists them, from the top downward. *)
Definition thresholds (count minCount maxCount : Z) : list (bool * sizeclass) :=
  let distribution := (maxCount - minCount) / 6 in
  [ (bool_decide (count = maxCount), mostHuge);
    (bool_decide (count > minCount + 5 * distribution), hugest);
    (bool_decide (count > minCount + 4 * distribution), huge);
    (bool_decide (count > minCount + 3 * distribution), biggest);
    (bool_decide (count > minCount + 2 * distribution), big);
    (bool_decide (count > minCount + 1 * distribution), medium);
    (bool_decide (count > minCount), small);
    (bool_decide (count = minCount), smallest) ].

(** First match wins. *)
Fixpoint first_match (rules : list (bool * sizeclass)) : option sizeclass :=
  match rules with
  | [] => None
  | (b, s) :: rules => if b then Some s else first_match rules
  end.

Definition threshold_rule (count minCount maxCount : Z) : option sizeclass :=
  first_match (thresholds count minCount maxCount).

(** The class of a tag by the rule of the specification: [medium] for
    [untagged], otherwise the class of the first threshold that is met. Where
    no threshold is met, which needs a count below the minimum, the code
    leaves its initial [mediumTag]. *)
Definition spec_class (tag : string) (count minCount maxCount : Z)
    : sizeclass :=
  if decide (tag = "untagged") then medium
  else default medium (threshold_rule count minCount maxCount).

(** The cloud as the rule of the specification gives it: one anchor for each
    tag of the map, in the order of the loop over the keys. *)
Definition spec_cloud (tagurl : string)
    (tagcount : gmap string (list string)) (minCount maxCount : Z)
    : string :=
  foldr String.append ""
    (["<div id='tagcloud'>"]
     ++ ((λ kv : string * list string,
            cloud_anchor tagurl kv.1
              (class_name (spec_class kv.1 (len kv.2) minCount maxCount))
              (len kv.2)) <$> map_to_list tagcount)
     ++ ["</div>"]).

(** An occurrence map with the counts 1, 1, 2, 5, 9, 9. *)
Definition partition_counts : gmap string (list string) :=
  <["ant" := ["e1"]]> (<["bee" := ["e2"]]> (<["cat" := ["e1"; "e2"]]>
    (<["dog" := ["e1"; "e2"; "e3"; "e4"; "e5"]]>
      (<["eel" := ["e1"; "e2"; "e3"; "e4"; "e5"; "e6"; "e7"; "e8"; "e9"]]>
        (<["fox" := ["e1"; "e2"; "e3"; "e4"; "e5"; "e6"; "e7"; "e8"; "e9"]]>
           ∅))))).

(** What the loop of [get_related_stories] writes for one location, with
    the value of [base_url]. *)
Definition story_piece (FileEntry : string → file_entry) (base : string)
    (entry_location : string) : string :=
  let tmpentry := FileEntry entry_location in
  String "010"
    (("<a href='" +:+ base +:+ "/" +:+ fe_absolute_path tmpentry +:+ "/"
        +:+ fe_fn tmpentry +:+ "'>" +:+ fe_title tmpentry +:+ "</a>")
     +:+ "<br/>").

(** The locations the loop does not skip. *)
Definition shown_entries (FileEntry : string → file_entry) (e : entry)
    (myentries : list string) : list string :=
  filter (λ entry_location,
            fe_filename (FileEntry entry_location) ≠ entry_filename e)
    myentries.

(** ** The scenario of the specification *)

(** Entries [a:[foo,bar]], [b:[foo]], [c:[bar,baz]] and [d] without a tags
    line, no ignored tags. *)
Definition scenario_config : config :=
  {| ignore_tags := Some [];
     ignore_directories := [];
     taggable_files := None;
     datadir := "/blog";
     base_url := Some "http://example.org";
     tag_url := "http://example.org/tags/";
     tag_url_display := None;
     relatedstories_header := Some "<h3>Related</h3>" |}.

Definition scenario_item (location : string) (tags : option string) : item :=
  {| item_ext := "txt"; item_dir := "blog";
     item_location := location; item_tags := tags |}.

Definition scenario_corpus : list item :=
  [ scenario_item "a" (Some "foo,bar");
    scenario_item "b" (Some "foo");
    scenario_item "c" (Some "bar,baz");
    scenario_item "d" None ].

(** Its tag index: [foo→[a,b]], [bar→[a,c]], [baz→[c]], [untagged→[d]]. *)
Definition scenario_index : gmap string (list string) :=
  <["foo" := ["a"; "b"]]> (<["bar" := ["a"; "c"]]>
    (<["baz" := ["c"]]> (<["untagged" := ["d"]]> ∅))).

(** Its table, with the sets enumerated by [elements]. *)
Definition scenario_table : table :=
  [ [["a"; "c"]];
    [["c"]; ["c"]];
    [["a"]; []; ["a"; "b"]];
    [[]; []; []; ["d"]] ].

(** The data built for the scenario, with the sets enumerated by
    [elements]. *)
Definition scenario_data : folksonomy_data :=
  {| entrytagmap := scenario_index;
     sortedtags := ["bar"; "baz"; "foo"; "untagged"];
     folksonomy := scenario_table;
     tagcloud := create_tagcloud scenario_config scenario_index 1 2;
     populartagcloud :=
       create_popular_tagcloud scenario_config scenario_index 1 2 |}.

(** The entry [a] of the scenario, as it is rendered. *)
Definition scenario_entry : entry :=
  {| entry_tags := "foo,bar"; entry_filename := "a"; entry_related := None |}.

(** What [maxcount] keeps during the walk. *)
Definition maxcount_inv (st : gmap string (list string) * Z) : Prop :=
  0 ≤ st.2 ∧
  (∀ tag es, tag ≠ "untagged" → st.1 !! tag = Some es → len es ≤ st.2) ∧
  (st.2 = 0 ∨ ∃ tag es, st.1 !! tag = Some es ∧ st.2 ≤ len es).

(** The configuration of the scenario without the key [ignore_tags]. *)
Definition scenario_config_no_ignore : config :=
  {| ignore_tags := None;
     ignore_directories := [];
     taggable_files := None;
     datadir := "/blog";
     base_url := Some "http://example.org";
     tag_url := "http://example.org/tags/";
     tag_url_display := None;
     relatedstories_header := Some "<h3>Related</h3>" |}.

(** How often [story] occurs in a list of entries. *)
Definition occurrences (story : string) (l : list string) : nat :=
  length (filter (λ x, x = story) l).

(** The cell read for a pair of tags of the index: the entries of the tag
    for a tag and itself, otherwise the enumeration of the entries the two
    tags share. *)
Definition shared_cell (set_to_list : gset string → list string)
    (entrymap : gmap string (list string)) (t u : string) : list string :=
  if decide (t = u) then default [] (entrymap !! t)
  else intersection set_to_list (default [] (entrymap !! t))
         (default [] (entrymap !! u)).

(** What the tag [u] contributes to the story ranking of the tag [t]. *)
Definition story_triple (set_to_list : gset string → list string)
    (entrymap : gmap string (list string)) (t u : string)
    : list (Z * list string * string) :=
  let entries := shared_cell set_to_list entrymap t u in
  if bool_decide (entries ≠ []) then [(len entries, entries, u)] else [].

(** The votes a story has in the dictionary [related]. *)
Definition votes_of (related : gmap string (Z * string)) (story : string)
    : Z :=
  from_option fst 0 (related !! story).

(** Every value of [related] is the pair of a positive count and its key. *)
Definition votes_wf (related : gmap string (Z * string)) : Prop :=
  ∀ story r, related !! story = Some r → r.2 = story ∧ 0 < r.1.

(** The votes of a story for an entry with the given tags: one for each
    occurrence of the story in a cell read for a tag [t] of the entry that
    is not ignored and is in the index, and a tag [u] of the index that is a
    tag of the entry. *)
Definition entry_votes (entrymap : gmap string (list string))
    (tags ignoretags : list string) (story : string) : nat :=
  sum_list_with (λ t,
      if bool_decide ((t ∉ ignoretags) ∧ is_Some (entrymap !! t)) then
        sum_list_with (λ u,
            if bool_decide (u ∈ tags) then
              if decide (t = u)
              then occurrences story (default [] (entrymap !! t))
              else if bool_decide (story ∈ default [] (entrymap !! t)
                                   ∧ story ∈ default [] (entrymap !! u))
                   then 1%nat else 0%nat
            else 0%nat)
          (sort_strs (keys entrymap))
      else 0%nat)
    tags.

(** The votes the story [s] gets while the tag [t] of the entry is
    handled: none if [t] is ignored or not in [sortedtags], otherwise one
    for each occurrence of [s] in the cell read for [t] and a sorted tag
    that is a tag of the entry. *)
Definition cast_votes (set_to_list : gset string → list string)
    (data : folksonomy_data) (tags ignoretags : list string)
    (s t : string) : nat :=
  if bool_decide ((t ∉ ignoretags) ∧ t ∈ sortedtags data)
  then sum_list_with (λ u,
           if bool_decide (u ∈ tags)
           then occurrences s
                  (shared_cell set_to_list (entrytagmap data) t u)
           else 0%nat)
         (sortedtags data)
  else 0%nat.

(** The number of tags of the entry under which [story] is filed. *)
Definition shared_tags (entrymap : gmap string (list string))
    (tags : list string) (story : string) : nat :=
  length (filter (λ t, story ∈ default [] (entrymap !! t)) tags).

(** ** The cache *)

(** The configuration dictionary as [config.py] gives it to [cb_start] and
    to the command, before the plugin fills in its defaults: here [tag_url]
    and [ignore_directories] may be missing too, and [folksonomy_cache]
    names the cache file. *)
Record site_config : Type := {
  site_ignore_tags : option (list string);
  site_ignore_directories : option (list string);
  site_taggable_files : option (list string);
  site_datadir : string;
  site_base_url : option string;
  site_tag_url : option string;
  site_tag_url_display : option string;
  site_relatedstories_header : option string;
  folksonomy_cache : option string
}.

(** The files [cb_start] can meet: an existing path is mapped to what
    [cPickle.load] reads from it, [None] when opening or reading it
    raises. *)
Abbreviation files := (gmap string (option folksonomy_data)).

(** [os.path.exists(path)]; no file has the empty path. *)
Definition path_exists (fs : files) (path : string) : bool :=
  bool_decide (path ≠ "" ∧ is_Some (fs !! path)).

(** [config['tag_url']] after
    [if 'tag_url' not in config: config['tag_url'] = "%s/%s/" % ...], which
    reads [config['base_url']]. *)
Definition default_tag_url (py : site_config) : result string :=
  match site_tag_url py with
  | Some url => Ok url
  | None =>
      base ← config_get (site_base_url py);
      Ok (base +:+ "/" +:+ "tags" +:+ "/")
  end.

(** The dictionary once [tag_url] is set, with the values of
    [tag_url_display] and [ignore_directories]. *)
Definition configured (py : site_config) (tagurl : string)
    (display : option string) (ignoredirectories : list string) : config :=
  {| ignore_tags := site_ignore_tags py;
     ignore_directories := ignoredirectories;
     taggable_files := site_taggable_files py;
     datadir := site_datadir py;
     base_url := site_base_url py;
     tag_url := tagurl;
     tag_url_display := display;
     relatedstories_header := site_relatedstories_header py |}.

Section cache.

Variable set_to_list : gset string → list string.

(** [create_folksonomy(config)] on the dictionary: it reads
    [config['ignore_directories']] before the walk and raises [KeyError]
    when the key is missing. *)
Definition site_create_folksonomy (py : site_config) (tagurl : string)
    (display : option string) (corpus : list item)
    : result folksonomy_data :=
  ignoredirectories ← config_get (site_ignore_directories py);
  create_folksonomy set_to_list
    (configured py tagurl display ignoredirectories) corpus.

(** [cb_start]: the values of [tag_url] and [tag_url_display] it leaves in
    the configuration and what it merges into the request data. The bare
    [except] covers the reading of the cache only; an exception of
    [create_folksonomy] is raised to the caller. *)
Definition cb_start (py : site_config) (fs : files) (corpus : list item)
    : result (string * string * folksonomy_data) :=
  tagurl ← default_tag_url py;
  let display := default tagurl (site_tag_url_display py) in
  let path := default "" (folksonomy_cache py) in
  if path_exists fs path then
    match fs !! path with
    | Some (Some folksonomy) => Ok (tagurl, display, folksonomy)
    | _ =>
        folksonomy ← site_create_folksonomy py tagurl (Some display) corpus;
        Ok (tagurl, display, folksonomy)
    end
  else
    folksonomy ← site_create_folksonomy py tagurl (Some display) corpus;
    Ok (tagurl, display, folksonomy).

(** [build_folksonomy] up to the writing of the cache: the file it opens
    for writing and the object it hands to [cPickle.dump]. Whether the file
    can be written, after which the command returns 0, is outside the
    model. *)
Definition build_folksonomy (py : site_config) (corpus : list item)
    : result (string * folksonomy_data) :=
  match folksonomy_cache py with
  | None => Raise ValueError
  | Some cachefile =>
      if bool_decide (cachefile = "") then Raise ValueError
      else
        tagurl ← default_tag_url py;
        folksonomy ← site_create_folksonomy py tagurl
                       (site_tag_url_display py) corpus;
        Ok (cachefile, folksonomy)
  end.

End cache.

(** The site of the scenario, with a cache file. *)
Definition scenario_site : site_config :=
  {| site_ignore_tags := Some [];
     site_ignore_directories := Some [];
     site_taggable_files := None;
     site_datadir := "/blog";
     site_base_url := Some "http://example.org";
     site_tag_url := None;
     site_tag_url_display := None;
     site_relatedstories_header := Some "<h3>Related</h3>";
     folksonomy_cache := Some "/var/cache/folksonomy" |}.

(** * Properties *)

(** ** Keys, sorting and positions *)

Lemma elem_of_keys {A} (d : gmap string A) (k : string) :
  k ∈ keys d ↔ is_Some (d !! k).
Proof.
  unfold keys. rewrite list_elem_of_fmap. split.
  - intros [[k' a] [-> Hin]]. apply elem_of_map_to_list in Hin. by exists a.
  - intros [a Ha]. exists (k, a). split; [done|]. by apply elem_of_map_to_list.
Qed.

Lemma NoDup_keys {A} (d : gmap string A) : NoDup (keys d).
Proof. apply NoDup_fst_map_to_list. Qed.

Lemma sort_strs_perm (l : list string) : sort_strs l ≡ₚ l.
Proof. apply merge_sort_Permutation. Qed.

Lemma elem_of_sorted_keys {A} (d : gmap string A) (k : string) :
  k ∈ sort_strs (keys d) ↔ is_Some (d !! k).
Proof. by rewrite sort_strs_perm, elem_of_keys. Qed.

Lemma NoDup_sorted_keys {A} (d : gmap string A) : NoDup (sort_strs (keys d)).
Proof. rewrite sort_strs_perm. apply NoDup_keys. Qed.

Lemma py_index_lookup (l : list string) (i : nat) (x : string) :
  NoDup l → l !! i = Some x → py_index x l = Ok i.
Proof.
  intros Hnd Hi. unfold py_index.
  destruct (list_find (λ y, y = x) l) as [[j y]|] eqn:Hfind.
  - apply list_find_Some in Hfind as (Hj & Hy & _). subst y.
    by rewrite (NoDup_lookup l i j x Hnd Hi Hj).
  - apply list_find_None in Hfind.
    rewrite Forall_forall in Hfind.
    destruct (Hfind x); [|done]. by eapply list_elem_of_lookup_2.
Qed.

(** *** Sorting

    The orders are total, transitive and antisymmetric, so the sorted list
    is determined by its elements: whatever algorithm [sort] runs, it
    returns the list that [merge_sort] returns. *)

#[local] Instance str_le_po : PartialOrder str_le := String.le_po.
#[local] Instance str_le_total : Total str_le := String.le_total.

Lemma sort_strs_sorted (l : list string) : Sorted str_le (sort_strs l).
Proof. apply (Sorted_merge_sort str_le). Qed.

Lemma sort_strs_unique (l l' : list string) :
  l' ≡ₚ l → Sorted str_le l' → l' = sort_strs l.
Proof.
  intros Hperm Hsorted. apply (Sorted_unique str_le); [done| |].
  - apply sort_strs_sorted.
  - by rewrite sort_strs_perm.
Qed.

Lemma pair_ge_alt (a b : Z * string) :
  pair_ge a b ↔ b.1 < a.1 ∨ (b.1 = a.1 ∧ str_le b.2 a.2).
Proof.
  unfold pair_ge, pair_compare, str_le, String.leb.
  destruct (Z.compare_spec b.1 a.1) as [Heq|Hlt|Hgt]; simpl.
  - split; [by right|]. intros [Hlt|[_ Hle]]; [|done].
    rewrite Heq in Hlt. by apply Z.lt_irrefl in Hlt.
  - split; [by left|done].
  - split; [done|]. intros [Hlt|[Heq _]].
    + by apply (Z.lt_asymm _ _ Hgt).
    + rewrite Heq in Hgt. by apply Z.lt_irrefl in Hgt.
Qed.

#[local] Instance pair_ge_total : Total pair_ge.
Proof.
  intros a b. rewrite !pair_ge_alt.
  destruct (Z.lt_trichotomy a.1 b.1) as [Hlt|[Heq|Hgt]]; [by right; left| |by left; left].
  destruct (total str_le a.2 b.2); [right|left]; right; by split.
Qed.

#[local] Instance pair_ge_trans : Transitive pair_ge.
Proof.
  intros a b c. rewrite !pair_ge_alt.
  intros [Hba|[Hba Hle1]] [Hcb|[Hcb Hle2]].
  - left. by etrans.
  - left. by rewrite Hcb.
  - left. by rewrite <- Hba.
  - right. split; [by rewrite Hcb|]. by etrans.
Qed.

#[local] Instance pair_ge_antisymm : AntiSymm (=) pair_ge.
Proof.
  intros [n s] [m t]. rewrite !pair_ge_alt. simpl.
  intros [Hlt1|[Heq1 Hle1]] [Hlt2|[Heq2 Hle2]].
  - by destruct (Z.lt_asymm _ _ Hlt1).
  - rewrite Heq2 in Hlt1. by apply Z.lt_irrefl in Hlt1.
  - rewrite Heq1 in Hlt2. by apply Z.lt_irrefl in Hlt2.
  - f_equal; [done|]. by apply (anti_symm str_le).
Qed.

Lemma sort_pairs_desc_sorted (l : list (Z * string)) :
  Sorted pair_ge (sort_pairs_desc l).
Proof. apply (Sorted_merge_sort pair_ge). Qed.

Lemma sort_pairs_desc_unique (l l' : list (Z * string)) :
  l' ≡ₚ l → Sorted pair_ge l' → l' = sort_pairs_desc l.
Proof.
  intros Hperm Hsorted. apply (Sorted_unique pair_ge); [done| |].
  - apply sort_pairs_desc_sorted.
  - unfold sort_pairs_desc. by rewrite merge_sort_Permutation.
Qed.

Lemma list_get_Ok {A} (l : list A) (i : nat) (a : A) :
  l !! i = Some a → list_get l i = Ok a.
Proof. intros H. unfold list_get. by rewrite H. Qed.

(** ** Loops *)

Lemma for_each_app {A S} (f : S → A → result S) (l1 l2 : list A) (s : S) :
  for_each f (l1 ++ l2) s = s' ← for_each f l1 s; for_each f l2 s'.
Proof.
  revert s. induction l1 as [|a l1 IH]; intros s; simpl; [done|].
  destruct (f s a) as [s'|e]; simpl; [apply IH|done].
Qed.

(** A loop whose body only appends to its accumulator. *)
Lemma for_each_append {A B} (f : list B → A → result (list B))
    (h : A → list B) (l : list A) (s : list B) :
  (∀ a s, a ∈ l → f s a = Ok (s ++ h a)) →
  for_each f l s = Ok (s ++ (l ≫= h)).
Proof.
  revert s. induction l as [|a l IH]; intros s Hf; simpl.
  - by rewrite app_nil_r.
  - rewrite Hf by left. simpl. rewrite IH.
    + by rewrite app_assoc.
    + intros a' s' Hin. apply Hf. by right.
Qed.

(** ** The co-occurrence table *)

Section table_facts.

Variable set_to_list : gset string → list string.
Variable entrymap : gmap string (list string).
Variable taglist : list string.
Hypothesis taglist_keys : ∀ tag, tag ∈ taglist → is_Some (entrymap !! tag).

Lemma entries_at_tag_entries (x : nat) :
  (x < length taglist)%nat →
  entries_at entrymap taglist x = Ok (tag_entries entrymap taglist x).
Proof.
  intros Hx. destruct (lookup_lt_is_Some_2 taglist x Hx) as [tag Htag].
  destruct (taglist_keys tag) as [es Hes]; [by eapply list_elem_of_lookup_2|].
  unfold entries_at, tag_entries, list_get, dict_get.
  rewrite Htag. simpl. by rewrite Hes.
Qed.

Lemma rows_lookup (f : nat → nat) (x : nat) :
  (x < length taglist)%nat →
  rows set_to_list entrymap taglist f !! x
  = Some (cell_of set_to_list entrymap taglist x <$> seq 0 (f x)).
Proof.
  intros Hx. unfold rows. rewrite list_lookup_fmap, lookup_seq_lt by done.
  done.
Qed.

Lemma rows_ext (f g : nat → nat) :
  (∀ x, (x < length taglist)%nat → f x = g x) →
  rows set_to_list entrymap taglist f = rows set_to_list entrymap taglist g.
Proof.
  intros Hfg. unfold rows. apply list_eq; intros i.
  rewrite !list_lookup_fmap.
  destruct (decide (i < length taglist)%nat) as [Hi|Hi].
  - rewrite lookup_seq_lt by done. simpl. by rewrite Hfg.
  - rewrite lookup_seq_ge by lia. done.
Qed.

Lemma table_step_rows (f : nat → nat) (x y : nat) :
  (x < length taglist)%nat → (y < length taglist)%nat → f x = y →
  table_step set_to_list entrymap taglist y
    (rows set_to_list entrymap taglist f) x
  = Ok (rows set_to_list entrymap taglist
          (λ x', if decide (x' = x) then S y else f x')).
Proof.
  intros Hx Hy Hf.
  assert (table_append (rows set_to_list entrymap taglist f) x
            (cell_of set_to_list entrymap taglist x y)
          = Ok (rows set_to_list entrymap taglist
                  (λ x', if decide (x' = x) then S y else f x'))) as Happ.
  { unfold table_append, list_get. rewrite rows_lookup by done. simpl.
    f_equal. apply list_eq; intros i.
    destruct (decide (i = x)) as [->|Hne].
    - rewrite list_lookup_insert_eq
        by (unfold rows; rewrite length_fmap, length_seq; done).
      rewrite rows_lookup by done. rewrite decide_True by done.
      by rewrite Hf, seq_S, fmap_app.
    - rewrite list_lookup_insert_ne by done.
      unfold rows. rewrite !list_lookup_fmap.
      destruct (seq 0 (length taglist) !! i) as [j|] eqn:Hj; [|done].
      apply lookup_seq in Hj as [-> _]. simpl.
      by rewrite decide_False. }
  unfold table_step. rewrite !entries_at_tag_entries by done.
  unfold cell_of in Happ. destruct (decide (x = y)); exact Happ.
Qed.

Lemma inner_loop_rows (y j m : nat) :
  (m + j = length taglist)%nat → (y ≤ m)%nat → (y < length taglist)%nat →
  for_each (table_step set_to_list entrymap taglist y) (seq m j)
    (rows set_to_list entrymap taglist (filled y m))
  = Ok (rows set_to_list entrymap taglist (filled y (length taglist))).
Proof.
  revert m. induction j as [|j IH]; intros m Hm Hym Hy; simpl.
  - replace m with (length taglist) by lia. done.
  - rewrite (table_step_rows _ m y);
      [|lia|done|unfold filled; rewrite decide_False by lia; lia].
    simpl. rewrite <- (IH (S m)) by lia. f_equal.
    apply rows_ext. intros x Hx. unfold filled.
    repeat case_decide; lia.
Qed.

Lemma outer_loop_rows (j y : nat) :
  (y + j = length taglist)%nat →
  for_each
    (λ t y, for_each (table_step set_to_list entrymap taglist y)
              (seq y (length taglist - y)) t)
    (seq y j) (rows set_to_list entrymap taglist (filled y y))
  = Ok (rows set_to_list entrymap taglist (λ x, S x)).
Proof.
  revert y. induction j as [|j IH]; intros y Hy; simpl.
  - f_equal. apply rows_ext. intros x Hx. unfold filled.
    rewrite decide_False by lia. lia.
  - rewrite inner_loop_rows by lia. simpl.
    rewrite <- (IH (S y)) by lia. f_equal.
    apply rows_ext. intros x Hx. unfold filled.
    repeat case_decide; lia.
Qed.

Lemma rows_cell (x y : nat) :
  (y ≤ x)%nat → (x < length taglist)%nat →
  (cell_of set_to_list entrymap taglist x <$> seq 0 (S x)) !! y
  = Some (cell_of set_to_list entrymap taglist x y).
Proof.
  intros Hyx Hx. rewrite list_lookup_fmap, lookup_seq_lt by lia. done.
Qed.

Lemma rows_get (x y : nat) :
  (y ≤ x)%nat → (x < length taglist)%nat →
  (row ← list_get (rows set_to_list entrymap taglist (λ x, S x)) x;
   list_get row y)
  = Ok (cell_of set_to_list entrymap taglist x y).
Proof.
  intros Hyx Hx.
  rewrite (list_get_Ok _ x _ (rows_lookup (λ x, S x) x Hx)).
  change (list_get (cell_of set_to_list entrymap taglist x <$> seq 0 (S x)) y
          = Ok (cell_of set_to_list entrymap taglist x y)).
  by apply list_get_Ok, rows_cell.
Qed.

End table_facts.

(** The table is built without an exception and holds, in row [x], the
    cells of the columns [0 .. x]. *)
Lemma create_folksonomy_table_rows (set_to_list : gset string → list string)
    (entrymap : gmap string (list string)) :
  create_folksonomy_table set_to_list entrymap
  = Ok (rows set_to_list entrymap (sort_strs (keys entrymap)) (λ x, S x)).
Proof.
  unfold create_folksonomy_table.
  rewrite <- (outer_loop_rows set_to_list entrymap (sort_strs (keys entrymap)))
    with (y := 0%nat) (j := length (sort_strs (keys entrymap))).
  - f_equal. apply list_eq; intros i.
    unfold rows. rewrite list_lookup_fmap.
    destruct (decide (i < length (sort_strs (keys entrymap)))%nat).
    + rewrite lookup_replicate_2, lookup_seq_lt by done. done.
    + rewrite lookup_seq_ge by lia. simpl.
      apply lookup_replicate_None. lia.
  - intros tag. apply elem_of_sorted_keys.
  - done.
Qed.

(** C4. In the table built from a tag index, the cell stored at row [x],
    column [y] with [y ≤ x] is the full entry list of the tag at position [x]
    when [x = y], and otherwise lists, once each, exactly the entries that are
    under both the tag at position [x] and the tag at position [y]. *)
Theorem table_cells (set_to_list : gset string → list string)
    (entrymap : gmap string (list string)) :
  (∀ s, set_to_list s ≡ₚ elements s) →
  ∃ t, create_folksonomy_table set_to_list entrymap = Ok t ∧
    ∀ x y tx ty,
      (y ≤ x)%nat →
      sort_strs (keys entrymap) !! x = Some tx →
      sort_strs (keys entrymap) !! y = Some ty →
      ∃ ex ey row cell,
        entrymap !! tx = Some ex ∧ entrymap !! ty = Some ey ∧
        t !! x = Some row ∧ row !! y = Some cell ∧
        (x = y → cell = ex) ∧
        (x ≠ y → NoDup cell ∧ ∀ e, e ∈ cell ↔ e ∈ ex ∧ e ∈ ey).
Proof.
  intros Hset. eexists. split; [apply create_folksonomy_table_rows|].
  intros x y tx ty Hyx Hx Hy.
  destruct (proj1 (elem_of_sorted_keys entrymap tx)) as [ex Hex];
    [by eapply list_elem_of_lookup_2|].
  destruct (proj1 (elem_of_sorted_keys entrymap ty)) as [ey Hey];
    [by eapply list_elem_of_lookup_2|].
  pose proof (lookup_lt_Some _ _ _ Hx) as Hxlt.
  exists ex, ey. eexists. eexists.
  split; [done|]. split; [done|].
  split; [by apply rows_lookup|].
  split; [by apply rows_cell|].
  unfold cell_of, tag_entries. rewrite Hx, Hy. simpl. rewrite Hex, Hey. simpl.
  split; intros Hxy.
  - by rewrite decide_True.
  - rewrite decide_False by done. unfold intersection. split.
    + rewrite Hset. apply NoDup_elements.
    + intros e. rewrite Hset, elem_of_elements, elem_of_intersection.
      by rewrite !elem_of_list_to_set.
Qed.

Lemma table_cells_witness :
  ∃ t, create_folksonomy_table elements scenario_index = Ok t ∧
    ∀ x y tx ty,
      (y ≤ x)%nat →
      sort_strs (keys scenario_index) !! x = Some tx →
      sort_strs (keys scenario_index) !! y = Some ty →
      ∃ ex ey row cell,
        scenario_index !! tx = Some ex ∧ scenario_index !! ty = Some ey ∧
        t !! x = Some row ∧ row !! y = Some cell ∧
        (x = y → cell = ex) ∧
        (x ≠ y → NoDup cell ∧ ∀ e, e ∈ cell ↔ e ∈ ex ∧ e ∈ ey).
Proof. apply (table_cells elements scenario_index). intros s. reflexivity. Defined.

(** The lookup rule does not depend on the order of the two positions. *)
Lemma shared_comm (t : table) (i j : nat) : shared t i j = shared t j i.
Proof.
  unfold shared. repeat case_decide; try done; try lia.
  by replace j with i by lia.
Qed.

(** C3. The lookup rule is symmetric in the two positions, on any table; on
    the table built from a tag index and for valid positions it reads,
    without an exception, the cell stored at row [max i j], column
    [min i j], although only the cells with row ≥ column are stored. *)
Theorem shared_symmetric (set_to_list : gset string → list string)
    (entrymap : gmap string (list string)) (t : table) (i j : nat) :
  create_folksonomy_table set_to_list entrymap = Ok t →
  (i < length (sort_strs (keys entrymap)))%nat →
  (j < length (sort_strs (keys entrymap)))%nat →
  shared t i j = shared t j i ∧
  ∃ row cell,
    t !! (i `max` j)%nat = Some row ∧ row !! (i `min` j)%nat = Some cell ∧
    shared t i j = Ok cell.
Proof.
  intros Ht Hi Hj. split; [apply shared_comm|].
  rewrite create_folksonomy_table_rows in Ht. injection Ht as <-.
  eexists. eexists. split; [apply rows_lookup; lia|].
  split; [apply rows_cell; lia|].
  unfold shared.
  destruct (decide (i ≤ j)%nat) as [Hij|Hij].
  - replace (i `max` j)%nat with j by lia.
    replace (i `min` j)%nat with i by lia.
    by apply rows_get.
  - rewrite decide_True by lia.
    replace (i `max` j)%nat with i by lia.
    replace (i `min` j)%nat with j by lia.
    apply rows_get; lia.
Qed.

Lemma shared_symmetric_witness :
  shared scenario_table 0 2 = shared scenario_table 2 0 ∧
  ∃ row cell,
    scenario_table !! (0 `max` 2)%nat = Some row ∧
    row !! (0 `min` 2)%nat = Some cell ∧
    shared scenario_table 0 2 = Ok cell.
Proof.
  apply (shared_symmetric elements scenario_index scenario_table 0 2).
  - vm_compute. reflexivity.
  - vm_compute. lia.
  - vm_compute. lia.
Defined.

(** ** Related tags *)

Lemma for_each_io_append {A B} (f : list B → A → io (list B))
    (lg : A → list string) (h : A → list B) (l : list A) (s : list B) :
  (∀ a s, a ∈ l → f s a = IO (lg a) (Ok (s ++ h a))) →
  for_each f l s = IO (l ≫= lg) (Ok (s ++ (l ≫= h))).
Proof.
  revert s. induction l as [|a l IH]; intros s Hf; simpl.
  - by rewrite app_nil_r.
  - rewrite Hf by left. unfold mbind at 1, io_bind. simpl.
    rewrite IH by (intros a' s' Hin; apply Hf; by right).
    simpl. by rewrite app_assoc.
Qed.

Section related_facts.

Variable set_to_list : gset string → list string.
Hypothesis set_to_list_elements : ∀ s, set_to_list s ≡ₚ elements s.
Variable data : folksonomy_data.
Hypothesis data_consistent : consistent set_to_list data.

Lemma shared_consistent (i j : nat) :
  (i < length (sortedtags data))%nat → (j < length (sortedtags data))%nat →
  shared (folksonomy data) i j
  = Ok (cell_of set_to_list (entrytagmap data) (sortedtags data)
          (i `max` j) (i `min` j)).
Proof.
  destruct data_consistent as [Hsorted Htable]. rewrite Hsorted.
  intros Hi Hj. rewrite create_folksonomy_table_rows in Htable.
  injection Htable as <-. unfold shared.
  destruct (decide (i ≤ j)%nat).
  - replace (i `max` j)%nat with j by lia.
    replace (i `min` j)%nat with i by lia.
    apply rows_get; lia.
  - rewrite decide_True by lia.
    replace (i `max` j)%nat with i by lia.
    replace (i `min` j)%nat with j by lia.
    apply rows_get; lia.
Qed.

Lemma len_cell_common (i j : nat) (t u : string) :
  sortedtags data !! i = Some t → sortedtags data !! j = Some u →
  len (cell_of set_to_list (entrytagmap data) (sortedtags data)
         (i `max` j) (i `min` j))
  = common (entrytagmap data) t u.
Proof.
  intros Hi Hj. unfold cell_of, common, tag_entries.
  assert (NoDup (sortedtags data)) as Hnd.
  { destruct data_consistent as [-> _]. apply NoDup_sorted_keys. }
  destruct (decide (i = j)) as [->|Hij].
  - assert (t = u) as -> by congruence.
    replace (j `max` j)%nat with j by lia.
    replace (j `min` j)%nat with j by lia.
    rewrite !decide_True by done. rewrite Hj. done.
  - assert (t ≠ u) as Htu.
    { intros ->. apply Hij. by eapply NoDup_lookup. }
    rewrite !decide_False by (done || lia).
    unfold intersection, len.
    rewrite (Permutation_length (set_to_list_elements _)).
    f_equal. unfold size, set_size. simpl. f_equal. f_equal.
    destruct (decide (i ≤ j)%nat).
    + replace (i `max` j)%nat with j by lia.
      replace (i `min` j)%nat with i by lia.
      rewrite Hi, Hj. simpl. apply (comm_L (∩)).
    + replace (i `max` j)%nat with i by lia.
      replace (i `min` j)%nat with j by lia.
      rewrite Hi, Hj. done.
Qed.

(** The single-tag ranking of a tag of the index: nothing is printed, no
    exception is raised. *)
Lemma _get_related_tags_present (tag : string) :
  tag ∈ sortedtags data →
  _get_related_tags tag data
  = IO [] (Ok (related_pairs (entrytagmap data) tag)).
Proof.
  intros Hin. unfold _get_related_tags.
  rewrite bool_decide_eq_false_2 by (by intros ?).
  assert (NoDup (sortedtags data)) as Hnd.
  { destruct data_consistent as [-> _]. apply NoDup_sorted_keys. }
  apply list_elem_of_lookup in Hin as [i Hi].
  rewrite (py_index_lookup _ i tag Hnd Hi).
  unfold quiet. f_equal.
  change ((relationship ← for_each (λ relationship t,
              position ← py_index t (sortedtags data);
              entries ← shared (folksonomy data) i position;
              Ok (if bool_decide (entries ≠ [])
                  then relationship ++ [(len entries, t)]
                  else relationship)) (sortedtags data) [];
           Ok (sort_pairs_desc relationship))
          = Ok (related_pairs (entrytagmap data) tag)).
  rewrite (for_each_append _ (related_pair (entrytagmap data) tag)).
  { unfold related_pairs. destruct data_consistent as [<- _]. done. }
  intros u rel Hu. apply list_elem_of_lookup in Hu as [j Hj].
  rewrite (py_index_lookup _ j u Hnd Hj).
  change ((entries ← shared (folksonomy data) i j;
           Ok (if bool_decide (entries ≠ [])
               then rel ++ [(len entries, u)] else rel))
          = Ok (rel ++ related_pair (entrytagmap data) tag u)).
  rewrite shared_consistent by (by eapply lookup_lt_Some).
  change (Ok (if bool_decide (cell_of set_to_list (entrytagmap data)
                    (sortedtags data) (i `max` j) (i `min` j) ≠ [])
              then rel ++ [(len (cell_of set_to_list (entrytagmap data)
                    (sortedtags data) (i `max` j) (i `min` j)), u)]
              else rel)
          = Ok (rel ++ related_pair (entrytagmap data) tag u)).
  f_equal. unfold related_pair.
  rewrite <- (len_cell_common i j tag u Hi Hj).
  destruct (cell_of set_to_list (entrytagmap data) (sortedtags data)
              (i `max` j) (i `min` j)) as [|c cs] eqn:Hcell.
  - rewrite bool_decide_eq_false_2 by (by intros ?).
    rewrite bool_decide_eq_false_2 by (by intros ?).
    by rewrite app_nil_r.
  - rewrite bool_decide_eq_true_2 by done.
    rewrite bool_decide_eq_true_2 by (unfold len; simpl; lia).
    done.
Qed.

(** The single-tag ranking of a tag that is not in the index. *)
Lemma _get_related_tags_absent (d : folksonomy_data) (tag : string) :
  tag ∉ sortedtags d →
  _get_related_tags tag d = IO [not_in_sortedtags tag] (Ok []).
Proof.
  intros Hin. unfold _get_related_tags.
  by rewrite bool_decide_eq_true_2.
Qed.

Lemma get_related_tags_closed (e : entry) (cfg : config)
    (ignoretags : list string) :
  ignore_tags cfg = Some ignoretags →
  get_related_tags e data cfg
  = IO (related_tags_log (entrytagmap data) (split_comma (entry_tags e))
          ignoretags)
       (Ok (related_tags_of (entrytagmap data) (split_comma (entry_tags e))
              ignoretags)).
Proof.
  intros Hcfg. unfold get_related_tags. rewrite Hcfg.
  unfold mbind at 1, io_bind. simpl.
  erewrite (for_each_io_append _
    (λ tag, if bool_decide (tag ∈ ignoretags) then []
            else if bool_decide (tag ∈ sort_strs (keys (entrytagmap data)))
                 then [] else [not_in_sortedtags tag])
    (λ tag, if bool_decide (tag ∈ ignoretags) then []
            else if bool_decide (tag ∈ sort_strs (keys (entrytagmap data)))
                 then related_pairs (entrytagmap data) tag else [])).
  { unfold mbind, io_bind. simpl. by rewrite app_nil_r. }
  intros tag rel _. destruct data_consistent as [Hsorted _].
  case_bool_decide as Hign.
  { by rewrite app_nil_r. }
  rewrite <- Hsorted. case_bool_decide as Hin.
  - rewrite _get_related_tags_present by done.
    unfold mbind, io_bind. simpl.
    case_bool_decide as Hnil; [done|].
    by rewrite Hnil, app_nil_r.
  - rewrite _get_related_tags_absent by done.
    unfold mbind, io_bind. simpl. by rewrite app_nil_r.
Qed.

End related_facts.

(** ** The build *)

Lemma create_folksonomy_inv (set_to_list : gset string → list string)
    (cfg : config) (corpus : list item) (data : folksonomy_data) :
  create_folksonomy set_to_list cfg corpus = Ok data →
  consistent set_to_list data ∧
  entrytagmap data = (build_index cfg corpus).1.
Proof.
  unfold create_folksonomy.
  destruct (build_index cfg corpus) as [entrymap maxcount].
  destruct (py_min (len <$> values entrymap)) as [mincount|]; [|done].
  simpl. rewrite create_folksonomy_table_rows. simpl.
  intros [= <-]. unfold consistent. simpl.
  by rewrite create_folksonomy_table_rows.
Qed.

Lemma create_folksonomy_nonempty (set_to_list : gset string → list string)
    (cfg : config) (corpus : list item) :
  (build_index cfg corpus).1 ≠ ∅ →
  ∃ data, create_folksonomy set_to_list cfg corpus = Ok data.
Proof.
  unfold create_folksonomy.
  destruct (build_index cfg corpus) as [entrymap maxcount]. simpl.
  intros Hne. unfold values.
  destruct (map_to_list entrymap) as [|kv kvs] eqn:Hkvs.
  { by apply map_to_list_empty_iff in Hkvs. }
  simpl. rewrite create_folksonomy_table_rows. simpl. by eexists.
Qed.

Lemma scenario_build :
  create_folksonomy elements scenario_config scenario_corpus
  = Ok scenario_data.
Proof. vm_compute. reflexivity. Qed.

(** ** Claims on the related tags *)

(** C1, as the code has it. For the scenario corpus the related tags of
    entry [a] are [foo] and [bar], in this order, whatever the enumeration
    of the sets: the ranking of each of its tags holds the tag itself with
    its two entries, and these pairs pass the filter [count > 1]; the pairs
    of the other tags have count 1 and are dropped. *)
Theorem scenario_related_tags (set_to_list : gset string → list string) :
  (∀ s, set_to_list s ≡ₚ elements s) →
  ∃ data,
    create_folksonomy set_to_list scenario_config scenario_corpus = Ok data ∧
    entrytagmap data = scenario_index ∧
    get_related_tags scenario_entry data scenario_config
    = IO [] (Ok ["foo"; "bar"]).
Proof.
  intros Hset.
  destruct (create_folksonomy_nonempty set_to_list scenario_config
              scenario_corpus) as [data Hdata].
  { vm_compute. discriminate. }
  exists data. split; [done|].
  apply create_folksonomy_inv in Hdata as [Hcons Hindex].
  assert (entrytagmap data = scenario_index) as Hscenario.
  { rewrite Hindex. vm_compute. reflexivity. }
  split; [done|].
  rewrite (get_related_tags_closed set_to_list Hset data Hcons _ _ []) by done.
  rewrite Hscenario. vm_compute. reflexivity.
Qed.

Lemma scenario_related_tags_witness :
  ∃ data,
    create_folksonomy elements scenario_config scenario_corpus = Ok data ∧
    entrytagmap data = scenario_index ∧
    get_related_tags scenario_entry data scenario_config
    = IO [] (Ok ["foo"; "bar"]).
Proof. apply (scenario_related_tags elements). intros s. reflexivity. Defined.

(** C1, as stated, fails: the result for entry [a] is not the empty list. *)
Lemma scenario_related_tags_not_empty :
  create_folksonomy elements scenario_config scenario_corpus
  = Ok scenario_data ∧
  outcome (get_related_tags scenario_entry scenario_data scenario_config)
  ≠ Ok [].
Proof. split; [exact scenario_build|]. vm_compute. discriminate. Qed.

(** C10. On data that hold the table of their own tag index, the single-tag
    ranking of a tag [t] with a non-empty entry list [es] is computed without
    a printed line or an exception and contains the pair [(len es, t)], read
    from the diagonal cell; and the related tags of an entry contain each tag
    of the entry that is not ignored and has more than one entry. *)
Theorem own_tag_in_ranking (set_to_list : gset string → list string)
    (data : folksonomy_data) :
  (∀ s, set_to_list s ≡ₚ elements s) →
  consistent set_to_list data →
  (∀ t es,
     entrytagmap data !! t = Some es → es ≠ [] →
     ∃ r, _get_related_tags t data = IO [] (Ok r) ∧ (len es, t) ∈ r) ∧
  (∀ e cfg ignoretags,
     ignore_tags cfg = Some ignoretags →
     ∃ log r,
       get_related_tags e data cfg = IO log (Ok r) ∧
       ∀ t es,
         t ∈ split_comma (entry_tags e) → t ∉ ignoretags →
         entrytagmap data !! t = Some es → 1 < len es →
         t ∈ r).
Proof.
  intros Hset Hcons.
  assert (∀ t es, entrytagmap data !! t = Some es → es ≠ [] →
            t ∈ sort_strs (keys (entrytagmap data)) ∧
            (len es, t) ∈ related_pairs (entrytagmap data) t) as Hown.
  { intros t es Hes Hne.
    assert (t ∈ sort_strs (keys (entrytagmap data))) as Hin
      by (by apply elem_of_sorted_keys).
    split; [done|]. unfold related_pairs, sort_pairs_desc.
    rewrite merge_sort_Permutation. apply list_elem_of_bind.
    exists t. split; [|done]. unfold related_pair, common.
    rewrite decide_True by done. rewrite Hes. simpl.
    rewrite bool_decide_eq_true_2; [by left|].
    destruct es; [done|]. unfold len. simpl. lia. }
  split.
  - intros t es Hes Hne. destruct (Hown t es Hes Hne) as [Hin Hpair].
    eexists. split; [|exact Hpair].
    apply (_get_related_tags_present set_to_list Hset data Hcons).
    destruct Hcons as [-> _]. done.
  - intros e cfg ignoretags Hcfg. eexists. eexists.
    split; [by apply (get_related_tags_closed set_to_list Hset data Hcons)|].
    intros t es Ht Hign Hes Hlen.
    destruct (Hown t es Hes) as [Hin Hpair].
    { intros ->. unfold len in Hlen. simpl in Hlen. lia. }
    unfold related_tags_of. apply list_elem_of_fmap.
    exists (len es, t). split; [done|].
    apply list_elem_of_filter. split; [done|].
    unfold sort_pairs_desc. rewrite merge_sort_Permutation.
    apply list_elem_of_bind. exists t. split; [|done].
    rewrite bool_decide_eq_false_2 by done.
    by rewrite bool_decide_eq_true_2.
Qed.

Lemma own_tag_in_ranking_witness :
  (∀ t es,
     entrytagmap scenario_data !! t = Some es → es ≠ [] →
     ∃ r, _get_related_tags t scenario_data = IO [] (Ok r) ∧ (len es, t) ∈ r) ∧
  (∀ e cfg ignoretags,
     ignore_tags cfg = Some ignoretags →
     ∃ log r,
       get_related_tags e scenario_data cfg = IO log (Ok r) ∧
       ∀ t es,
         t ∈ split_comma (entry_tags e) → t ∉ ignoretags →
         entrytagmap scenario_data !! t = Some es → 1 < len es →
         t ∈ r).
Proof.
  apply (own_tag_in_ranking elements scenario_data).
  - intros s. reflexivity.
  - split; vm_compute; reflexivity.
Defined.

(** C9, as the code has it. For a tag that is not in [sortedtags], the
    single-tag related-tags lookup prints one line that names the tag to
    [sys.stderr] and returns the empty list; the single-tag related-stories
    lookup returns the empty list and prints nothing. Neither raises. *)
Theorem absent_tag_lookups (data : folksonomy_data) (tag : string) :
  tag ∉ sortedtags data →
  _get_related_tags tag data
  = IO ["ERROR: " +:+ tag +:+ " not in sortedtags."] (Ok []) ∧
  quiet (_get_related_stories tag data) = IO [] (Ok []).
Proof.
  intros Hin. split; [by apply _get_related_tags_absent|].
  unfold _get_related_stories. by rewrite bool_decide_eq_true_2.
Qed.

Lemma absent_tag_lookups_witness :
  _get_related_tags "gone" scenario_data
  = IO ["ERROR: " +:+ "gone" +:+ " not in sortedtags."] (Ok []) ∧
  quiet (_get_related_stories "gone" scenario_data) = IO [] (Ok []).
Proof.
  apply (absent_tag_lookups scenario_data "gone").
  vm_compute. intros Hin. by repeat (inversion Hin as [|? ? ? Hin']; clear Hin; rename Hin' into Hin).
Defined.

(** C9, as stated, fails for the related-stories lookup: for the absent tag
    [gone] it reports nothing. *)
Lemma absent_tag_stories_lookup_silent :
  ("gone" ∉ sortedtags scenario_data) ∧
  ¬ (stderr (quiet (_get_related_stories "gone" scenario_data)) ≠ [] ∧
     outcome (quiet (_get_related_stories "gone" scenario_data)) = Ok []).
Proof.
  split.
  - apply not_elem_of_cons; split; [done|].
    apply not_elem_of_cons; split; [done|].
    apply not_elem_of_cons; split; [done|].
    apply not_elem_of_cons; split; [done|]. apply not_elem_of_nil.
  - intros [Hlog _]. by apply Hlog.
Qed.

(** ** The tag index *)

Lemma nonempty_default {A} (l : list A) (o : option (list A)) :
  o = nonempty l → default [] o = l.
Proof. intros ->. by destruct l. Qed.

Lemma nonempty_snoc {A} (l : list A) (a : A) :
  nonempty (l ++ [a]) = Some (l ++ [a]).
Proof. by destruct l. Qed.

Lemma append_ensure_lookup (t loc : string)
    (entrymap : gmap string (list string)) (tag : string) :
  append_entry t loc (ensure_tag t entrymap) !! tag
  = if decide (tag = t) then Some (default [] (entrymap !! t) ++ [loc])
    else entrymap !! tag.
Proof.
  unfold append_entry, ensure_tag.
  case_bool_decide as Hkey; case_decide as Htag; subst.
  - rewrite lookup_alter_eq, lookup_insert_eq.
    rewrite elem_of_keys in Hkey.
    by rewrite (proj2 (eq_None_not_Some _) Hkey).
  - by rewrite lookup_alter_ne, lookup_insert_ne.
  - rewrite lookup_alter_eq.
    apply elem_of_keys in Hkey as [es ->]. done.
  - by rewrite lookup_alter_ne.
Qed.

Lemma index_tags_lookup (ignoretags : list string) (loc : string)
    (tags : list string) (st : gmap string (list string) * Z)
    (L : string → list string) :
  (∀ tag, st.1 !! tag = nonempty (L tag)) →
  ∀ tag,
    (foldl (index_tag ignoretags loc) st tags).1 !! tag
    = nonempty (L tag ++ ((λ _, loc) <$>
        filter (λ t, t = tag) (filter (λ t, t ∉ ignoretags) tags))).
Proof.
  revert st L. induction tags as [|t tags IH]; intros st L HL tag; simpl.
  - by rewrite app_nil_r.
  - unfold index_tag at 2. case_bool_decide as Hign.
    + rewrite (filter_cons_False _ t) by (by intros []). by apply IH.
    + rewrite (filter_cons_True _ t) by done.
      rewrite (IH _ (λ tag, if decide (tag = t) then L t ++ [loc] else L tag)).
      * destruct (decide (t = tag)) as [->|Hne].
        -- rewrite filter_cons_True by done. rewrite decide_True by done.
           simpl. by rewrite <- app_assoc.
        -- rewrite filter_cons_False by done. by rewrite decide_False.
      * intros tag'. simpl. rewrite append_ensure_lookup.
        case_decide; [|done].
        by rewrite (nonempty_default (L t)), nonempty_snoc.
Qed.

Lemma index_item_lookup (cfg : config) (it : item)
    (st : gmap string (list string) * Z) (L : string → list string) :
  (∀ tag, st.1 !! tag = nonempty (L tag)) →
  ∀ tag, (index_item cfg st it).1 !! tag = nonempty (L tag ++ filed cfg tag it).
Proof.
  intros HL tag. unfold index_item, filed, eligible.
  case_bool_decide as Hext.
  { rewrite decide_False by (by intros []). by rewrite app_nil_r. }
  case_bool_decide as Hdir.
  { rewrite decide_False by (by intros []). by rewrite app_nil_r. }
  rewrite decide_True by done.
  destruct (item_tags it) as [tagstring|].
  - by apply index_tags_lookup.
  - simpl. rewrite append_ensure_lookup. case_decide as Htag.
    + subst tag.
      by rewrite (nonempty_default _ _ (HL "untagged")), nonempty_snoc.
    + by rewrite app_nil_r.
Qed.

(** The entry list of a tag holds, in the order of the walk, what each file
    adds to it; a tag to which nothing was added has no entry list. *)
Lemma build_index_lookup (cfg : config) (corpus : list item) (tag : string) :
  (build_index cfg corpus).1 !! tag = nonempty (corpus ≫= filed cfg tag).
Proof.
  unfold build_index. revert tag.
  induction corpus as [|it corpus IH] using rev_ind; intros tag; [done|].
  rewrite foldl_snoc, bind_app, bind_singleton.
  by apply (index_item_lookup cfg it _ (λ tag, corpus ≫= filed cfg tag)).
Qed.

Lemma nonempty_Some {A} (l es : list A) : nonempty l = Some es → es = l.
Proof. destruct l; [done|]. by intros [= <-]. Qed.

Lemma elem_of_filed (cfg : config) (tag loc : string) (it : item) :
  loc ∈ filed cfg tag it → loc = item_location it.
Proof.
  unfold filed. case_decide; [|by intros ?%elem_of_nil].
  destruct (item_tags it).
  - intros (? & -> & _)%list_elem_of_fmap. done.
  - case_decide; [|by intros ?%elem_of_nil]. by intros ->%list_elem_of_singleton.
Qed.

Lemma filter_none {A} (P : A → Prop) `{!∀ x, Decision (P x)} (l : list A) :
  (∀ x, x ∈ l → ¬ P x) → filter P l = [].
Proof.
  induction l as [|a l IH]; intros Hl; [done|].
  rewrite filter_cons_False by (apply Hl; by left).
  apply IH. intros x Hx. apply Hl. by right.
Qed.

Lemma filter_filed_elsewhere (cfg : config) (tag loc : string)
    (corpus : list item) :
  loc ∉ item_location <$> corpus →
  filter (λ l, l = loc) (corpus ≫= filed cfg tag) = [].
Proof.
  intros Hloc. apply filter_none. intros l Hin ->.
  apply list_elem_of_bind in Hin as (it & Hl & Hit).
  apply elem_of_filed in Hl. apply Hloc.
  apply list_elem_of_fmap. by exists it.
Qed.

(** With distinct locations, the occurrences of the location of a file in
    an entry list are those the file itself added. *)
Lemma filter_filed_own (cfg : config) (tag : string) (corpus : list item)
    (it : item) :
  NoDup (item_location <$> corpus) → it ∈ corpus →
  filter (λ l, l = item_location it) (corpus ≫= filed cfg tag)
  = filter (λ l, l = item_location it) (filed cfg tag it).
Proof.
  induction corpus as [|a corpus IH]; intros Hnd Hit.
  { by apply elem_of_nil in Hit. }
  rewrite fmap_cons in Hnd. apply NoDup_cons in Hnd as [Ha Hnd].
  rewrite bind_cons, filter_app.
  apply elem_of_cons in Hit as [->|Hit].
  - rewrite filter_filed_elsewhere by done. by rewrite app_nil_r.
  - rewrite IH by done.
    rewrite (filter_none _ (filed cfg tag a)); [done|].
    intros l Hl ->. apply elem_of_filed in Hl. apply Ha. rewrite <- Hl.
    apply list_elem_of_fmap. by exists it.
Qed.

Lemma elem_of_filter_eq {A} `{!EqDecision A} (l : list A) (a : A) :
  a ∈ l ↔ filter (λ x, x = a) l ≠ [].
Proof.
  split.
  - intros Hin Hnil. by apply (filter_nil_not_elem_of _ _ a Hnil).
  - intros Hne. destruct (filter (λ x, x = a) l) as [|x xs] eqn:Hf; [done|].
    assert (x ∈ filter (λ x, x = a) l) as Hx by (rewrite Hf; by left).
    apply list_elem_of_filter in Hx as [-> Hx]. done.
Qed.

(** C5, as the code has it. In a walk with distinct locations, a file that
    passes the extension and directory tests and has no tags line is filed
    under [untagged], once, and under no other tag; a file with a tags line
    is filed under exactly those of its tags that are not ignored, so under
    no tag at all, [untagged] included, when all of them are ignored. *)
Theorem untagged_filing (cfg : config) (corpus : list item) (it : item) :
  NoDup (item_location <$> corpus) → it ∈ corpus → eligible cfg it →
  (item_tags it = None →
     (∃ es, (build_index cfg corpus).1 !! "untagged" = Some es ∧
            length (filter (λ l, l = item_location it) es) = 1%nat) ∧
     (∀ tag es,
        tag ≠ "untagged" → (build_index cfg corpus).1 !! tag = Some es →
        item_location it ∉ es)) ∧
  (∀ tagstring,
     item_tags it = Some tagstring →
     ∀ tag,
       (∃ es, (build_index cfg corpus).1 !! tag = Some es ∧
              item_location it ∈ es)
       ↔ tag ∈ effective_tags cfg tagstring).
Proof.
  intros Hnd Hit Hel.
  assert (∀ tag, filter (λ l, l = item_location it) (corpus ≫= filed cfg tag)
                 = filter (λ l, l = item_location it) (filed cfg tag it))
    as Hown by (intros tag; by apply filter_filed_own).
  split.
  - intros Hnone.
    assert (∀ tag, filed cfg tag it
                   = if decide (tag = "untagged") then [item_location it]
                     else []) as Hfiled.
    { intros tag. unfold filed. rewrite decide_True by done.
      by rewrite Hnone. }
    split.
    + exists (corpus ≫= filed cfg "untagged").
      assert (filter (λ l, l = item_location it)
                (corpus ≫= filed cfg "untagged") = [item_location it]) as Hf.
      { rewrite Hown, Hfiled. simpl. by rewrite filter_cons_True. }
      split; [|by rewrite Hf].
      rewrite build_index_lookup.
      destruct (corpus ≫= filed cfg "untagged"); [done|done].
    + intros tag es Htag Hes. rewrite build_index_lookup in Hes.
      apply nonempty_Some in Hes as ->.
      rewrite elem_of_filter_eq. rewrite Hown, Hfiled.
      rewrite decide_False by done. by intros [].
  - intros tagstring Hsome tag.
    assert (filed cfg tag it
            = (λ _, item_location it)
                <$> filter (λ t, t = tag) (effective_tags cfg tagstring))
      as Hfiled.
    { unfold filed. rewrite decide_True by done. by rewrite Hsome. }
    assert (item_location it ∈ corpus ≫= filed cfg tag
            ↔ tag ∈ effective_tags cfg tagstring) as Hiff.
    { rewrite elem_of_filter_eq, Hown, <- elem_of_filter_eq, Hfiled.
      rewrite (elem_of_filter_eq _ tag).
      destruct (filter (λ t, t = tag) (effective_tags cfg tagstring)).
      - simpl. split; [by intros ?%elem_of_nil|done].
      - simpl. split; [done|]. intros _. by left. }
    rewrite <- Hiff, build_index_lookup. split.
    + intros (es & Hes & Hin). by apply nonempty_Some in Hes as ->.
    + intros Hin. exists (corpus ≫= filed cfg tag). split; [|done].
      destruct (corpus ≫= filed cfg tag); [|done].
      by apply elem_of_nil in Hin.
Qed.

Lemma untagged_filing_witness :
  (item_tags (scenario_item "d" None) = None →
     (∃ es, (build_index scenario_config scenario_corpus).1 !! "untagged"
            = Some es ∧
            length (filter (λ l, l = item_location (scenario_item "d" None))
                      es) = 1%nat) ∧
     (∀ tag es,
        tag ≠ "untagged" →
        (build_index scenario_config scenario_corpus).1 !! tag = Some es →
        item_location (scenario_item "d" None) ∉ es)) ∧
  (∀ tagstring,
     item_tags (scenario_item "d" None) = Some tagstring →
     ∀ tag,
       (∃ es, (build_index scenario_config scenario_corpus).1 !! tag
              = Some es ∧
              item_location (scenario_item "d" None) ∈ es)
       ↔ tag ∈ effective_tags scenario_config tagstring).
Proof.
  apply (untagged_filing scenario_config scenario_corpus
           (scenario_item "d" None)).
  - apply (bool_decide_unpack _). vm_compute. exact I.
  - unfold scenario_corpus. right. right. right. left.
  - apply (bool_decide_unpack _). vm_compute. exact I.
Defined.

(** C5, as stated, fails: a file that passes the tests and whose only tag
    is ignored has no effective tag, and is not filed under [untagged]; the
    index stays empty. *)
Lemma ignored_only_item_not_untagged :
  eligible draft_config draft_item ∧
  item_tags draft_item = Some "draft" ∧
  effective_tags draft_config "draft" = [] ∧
  (build_index draft_config [draft_item]).1 !! "untagged" = None.
Proof.
  split; [apply (bool_decide_unpack _); vm_compute; exact I|].
  split; [done|]. split; vm_compute; reflexivity.
Qed.

(** A walk that files nothing makes the build raise. *)
Lemma create_folksonomy_empty_index
    (set_to_list : gset string → list string) (cfg : config)
    (corpus : list item) :
  (build_index cfg corpus).1 = ∅ →
  create_folksonomy set_to_list cfg corpus = Raise ValueError.
Proof.
  unfold create_folksonomy.
  destruct (build_index cfg corpus) as [entrymap maxcount]. simpl.
  intros ->. unfold values. by rewrite map_to_list_empty.
Qed.

(** C8, on the code. For an empty walk the build raises [ValueError], from
    [min] of an empty sequence, although the table builder and both cloud
    builders handle an empty tag index. *)
Theorem empty_corpus_build_raises (set_to_list : gset string → list string)
    (cfg : config) :
  create_folksonomy set_to_list cfg [] = Raise ValueError ∧
  create_folksonomy_table set_to_list ∅ = Ok [] ∧
  ∀ mincount maxcount,
    create_tagcloud cfg ∅ mincount maxcount = None ∧
    create_popular_tagcloud cfg ∅ mincount maxcount = None.
Proof.
  split; [by apply create_folksonomy_empty_index|].
  split; [by rewrite create_folksonomy_table_rows|].
  intros mincount maxcount.
  unfold create_popular_tagcloud, popular_tags, create_tagcloud.
  rewrite map_to_list_empty. simpl.
  by rewrite bool_decide_eq_false_2 by (by intros ?).
Qed.

(** ** What [maxcount] keeps during the walk *)

Lemma len_snoc {A} (l : list A) (a : A) : len (l ++ [a]) = len l + 1.
Proof. unfold len. rewrite length_app. simpl. lia. Qed.

Lemma index_tag_maxcount (ignoretags : list string) (loc : string)
    (st : gmap string (list string) * Z) (tag : string) :
  maxcount_inv st → maxcount_inv (index_tag ignoretags loc st tag).
Proof.
  intros (Hpos & Hle & Hatt). unfold index_tag.
  case_bool_decide; [done|]. unfold maxcount_inv. simpl.
  rewrite append_ensure_lookup, decide_True by done. simpl.
  split; [lia|]. split.
  - intros tag' es Htag'. rewrite append_ensure_lookup.
    case_decide as Heq.
    + intros [= <-]. lia.
    + intros Hes. specialize (Hle _ _ Htag' Hes). lia.
  - right.
    destruct (decide (st.2 ≤ len (default [] (st.1 !! tag) ++ [loc])))
      as [Hnew|Hold].
    + exists tag, (default [] (st.1 !! tag) ++ [loc]).
      rewrite append_ensure_lookup, decide_True by done. split; [done|lia].
    + destruct Hatt as [Hzero|(tag0 & es0 & Hes0 & Hlen0)].
      { rewrite len_snoc in Hold. unfold len in Hold. lia. }
      destruct (decide (tag0 = tag)) as [->|Hne].
      * rewrite Hes0 in Hold. simpl in Hold. rewrite len_snoc in Hold. lia.
      * exists tag0, es0. rewrite append_ensure_lookup, decide_False by done.
        split; [done|lia].
Qed.

Lemma index_item_maxcount (cfg : config)
    (st : gmap string (list string) * Z) (it : item) :
  maxcount_inv st → maxcount_inv (index_item cfg st it).
Proof.
  intros Hinv. unfold index_item.
  case_bool_decide; [done|]. case_bool_decide; [done|].
  destruct (item_tags it) as [tagstring|].
  - revert st Hinv.
    induction (split_comma tagstring) as [|tag tags IH]; intros st Hinv;
      [done|].
    simpl. apply IH. by apply index_tag_maxcount.
  - destruct Hinv as (Hpos & Hle & Hatt). unfold maxcount_inv. simpl.
    split; [done|]. split.
    + intros tag es Htag. rewrite append_ensure_lookup.
      rewrite decide_False by done. by apply Hle.
    + destruct Hatt as [Hzero|(tag0 & es0 & Hes0 & Hlen0)]; [by left|].
      right. destruct (decide (tag0 = "untagged")) as [->|Hne].
      * eexists "untagged", _.
        rewrite append_ensure_lookup, decide_True by done.
        split; [done|]. rewrite Hes0. simpl. rewrite len_snoc. lia.
      * exists tag0, es0. rewrite append_ensure_lookup, decide_False by done.
        done.
Qed.

Lemma build_index_maxcount (cfg : config) (corpus : list item) :
  maxcount_inv (build_index cfg corpus).
Proof.
  unfold build_index.
  induction corpus as [|it corpus IH] using rev_ind.
  - unfold maxcount_inv. simpl. split; [done|]. split; [|by left].
    intros tag es _. by rewrite lookup_empty.
  - rewrite foldl_snoc. by apply index_item_maxcount.
Qed.

(** ** Tag clouds *)

Lemma elem_of_cloud_entries (tagcount : gmap string (list string))
    (mincount maxcount : Z) (tag size : string) (count : Z) :
  (tag, size, count) ∈ cloud_entries tagcount mincount maxcount ↔
  ∃ es, tagcount !! tag = Some es ∧ count = len es ∧
        size = size_class tag (len es) mincount maxcount.
Proof.
  unfold cloud_entries. rewrite list_elem_of_fmap. split.
  - intros ([tag' es] & [= -> -> ->] & Hin). simpl.
    apply elem_of_map_to_list in Hin. by exists es.
  - intros (es & Hes & -> & ->). exists (tag, es).
    split; [done|]. by apply elem_of_map_to_list.
Qed.


(** The loop of the popular cloud, on any list of tags with their entry
    lists in which no tag comes twice. *)
Lemma popular_fold (mincount maxcount distribution : Z)
    (l : list (string * list string)) :
  NoDup l.*1 →
  let pop := foldl (popular_step mincount distribution) (∅, maxcount) l in
  (∀ tag es,
     pop.1 !! tag = Some es ↔
     (tag, es) ∈ l ∧ len es > mincount + distribution) ∧
  pop.2 ≤ maxcount ∧
  (∀ tag es, pop.1 !! tag = Some es → pop.2 ≤ len es) ∧
  (pop.2 = maxcount ∨ ∃ tag es, pop.1 !! tag = Some es ∧ len es = pop.2).
Proof.
  intros Hnd. induction l as [|[k v] l IH] using rev_ind; simpl.
  { split; [|split; [lia|split; [done|by left]]].
    intros tag es. rewrite lookup_empty. split; [done|].
    by intros [?%elem_of_nil _]. }
  rewrite fmap_app in Hnd. apply NoDup_app in Hnd as (Hnd & Hk & _).
  destruct (IH Hnd) as (Hlookup & Hmax & Hlow & Hatt). clear IH.
  rewrite foldl_snoc.
  set (pop := foldl _ _ l) in *. unfold popular_step. simpl.
  assert (pop.1 !! k = None) as Hfresh.
  { apply eq_None_not_Some. intros [es Hes].
    apply Hlookup in Hes as [Hin _]. apply (Hk k).
    - apply list_elem_of_fmap. by exists (k, es).
    - simpl. by left. }
  case_bool_decide as Hkeep; simpl.
  - split; [|split; [lia|split]].
    + intros tag es. destruct (decide (tag = k)) as [->|Hne].
      * rewrite lookup_insert_eq. split.
        -- intros [= <-]. split; [|done]. apply elem_of_app.
           right. by left.
        -- intros [Hin _]. apply elem_of_app in Hin as [Hin|Hin].
           ++ exfalso. apply (Hk k); [|simpl; by left].
              apply list_elem_of_fmap. by exists (k, es).
           ++ apply list_elem_of_singleton in Hin. by injection Hin as ->.
      * rewrite lookup_insert_ne by done. rewrite Hlookup.
        rewrite elem_of_app, list_elem_of_singleton.
        split; [intros [? ?]; by auto|].
        intros [[?|[= ? ?]] ?]; [done|done].
    + intros tag es. destruct (decide (tag = k)) as [->|Hne].
      * rewrite lookup_insert_eq. intros [= <-]. lia.
      * rewrite lookup_insert_ne by done. intros Hes.
        specialize (Hlow _ _ Hes). lia.
    + destruct (decide (len v ≤ pop.2)) as [Hle|Hgt].
      * right. exists k, v. rewrite lookup_insert_eq. split; [done|lia].
      * destruct Hatt as [Heq|(tag & es & Hes & Hlen)]; [left; lia|].
        right. exists tag, es. split; [|lia].
        rewrite lookup_insert_ne; [done|]. intros <-. congruence.
  - split; [|done].
    intros tag es. rewrite Hlookup.
    rewrite elem_of_app, list_elem_of_singleton.
    split; [intros [? ?]; by auto|].
    intros [[?|[= -> ->]] ?]; [done|done].
Qed.

Lemma py_min_le (l : list Z) (m c : Z) :
  py_min l = Ok m → c ∈ l → m ≤ c.
Proof.
  destruct l as [|x l]; [done|]. simpl. intros [= <-].
  enough (∀ l x, foldl Z.min x l ≤ x ∧ ∀ c, c ∈ l → foldl Z.min x l ≤ c)
    as Hgen.
  { destruct (Hgen l x) as [Hx Hl].
    intros [->|Hin]%elem_of_cons; [exact Hx|by apply Hl]. }
  clear. induction l as [|y l IH]; intros x; simpl.
  - split; [done|]. by intros c ?%elem_of_nil.
  - destruct (IH (Z.min x y)) as [Hle Hall]. split; [lia|].
    intros c [->|Hin]%elem_of_cons; [lia|by apply Hall].
Qed.

Lemma size_class_threshold (tag : string) (count mincount maxcount : Z) :
  tag ≠ "untagged" →
  size_class tag count mincount maxcount
  = match threshold_rule count mincount maxcount with
    | Some c => class_name c
    | None => "mediumTag"
    end.
Proof.
  intros Htag. unfold size_class. rewrite bool_decide_eq_true_2 by done.
  unfold threshold_rule, thresholds, first_match.
  replace (5 * ((maxcount - mincount) / 6))
    with ((maxcount - mincount) / 6 * 5) by lia.
  replace (4 * ((maxcount - mincount) / 6))
    with ((maxcount - mincount) / 6 * 4) by lia.
  replace (3 * ((maxcount - mincount) / 6))
    with ((maxcount - mincount) / 6 * 3) by lia.
  replace (2 * ((maxcount - mincount) / 6))
    with ((maxcount - mincount) / 6 * 2) by lia.
  replace (1 * ((maxcount - mincount) / 6))
    with ((maxcount - mincount) / 6) by lia.
  repeat (case_bool_decide; [done|]). done.
Qed.

Lemma threshold_rule_is_Some (count mincount maxcount : Z) :
  mincount ≤ count → is_Some (threshold_rule count mincount maxcount).
Proof.
  intros Hle. unfold threshold_rule, thresholds, first_match.
  repeat (case_bool_decide; [by eexists|]). lia.
Qed.

Lemma size_class_spec_class (tag : string) (count mincount maxcount : Z) :
  size_class tag count mincount maxcount
  = class_name (spec_class tag count mincount maxcount).
Proof.
  unfold spec_class. case_decide as Htag.
  - unfold size_class. by rewrite bool_decide_eq_false_2 by (by intros ?).
  - rewrite size_class_threshold by done.
    by destruct (threshold_rule count mincount maxcount).
Qed.

Lemma create_tagcloud_spec_cloud (cfg : config)
    (tagcount : gmap string (list string)) (mincount maxcount : Z) :
  create_tagcloud cfg tagcount mincount maxcount
  = if bool_decide (tagcount = ∅) then None
    else Some (spec_cloud (default (tag_url cfg) (tag_url_display cfg))
                 tagcount mincount maxcount).
Proof.
  unfold create_tagcloud, spec_cloud, cloud_entries.
  case_bool_decide as Hne.
  - rewrite bool_decide_eq_false_2 by done. cbv zeta. do 4 f_equal.
    rewrite <- list_fmap_compose. apply list_fmap_ext.
    intros i [tag es] _. simpl. by rewrite size_class_spec_class.
  - by rewrite bool_decide_eq_true_2.
Qed.

(** C6. The cloud has one anchor for each tag of the map, and the class of
    the anchor is that of the first threshold, from the top downward, that
    the count of the tag meets; [untagged] gets [mediumTag] whatever its
    count. A threshold is met whenever the count is not below the minimum,
    which holds for every tag of the full cloud, whose minimum is the least
    count of the index, and of the popular cloud, whose minimum is [popmin].
    A tag other than [untagged] whose count is the maximum gets
    [mostHugeTag], and one whose count is the minimum, below the maximum,
    gets [smallestTag]; so it is for the counts 1, 1, 2, 5, 9, 9, with
    minimum 1, maximum 9 and distribution 1. *)
Theorem size_class_rule :
  (∀ cfg tagcount mincount maxcount,
     create_tagcloud cfg tagcount mincount maxcount
     = if bool_decide (tagcount = ∅) then None
       else Some (spec_cloud (default (tag_url cfg) (tag_url_display cfg))
                    tagcount mincount maxcount)) ∧
  (∀ count mincount maxcount,
     spec_class "untagged" count mincount maxcount = medium) ∧
  (∀ tag count mincount maxcount,
     tag ≠ "untagged" → mincount ≤ count →
     threshold_rule count mincount maxcount
     = Some (spec_class tag count mincount maxcount)) ∧
  (∀ (tagcount : gmap string (list string)) mincount tag es,
     py_min (len <$> values tagcount) = Ok mincount →
     tagcount !! tag = Some es → mincount ≤ len es) ∧
  (∀ tagcount mincount maxcount tag es,
     (popular_tags tagcount mincount maxcount).1 !! tag = Some es →
     (popular_tags tagcount mincount maxcount).2 ≤ len es) ∧
  (∀ tag count mincount maxcount,
     tag ≠ "untagged" →
     (count = maxcount →
      spec_class tag count mincount maxcount = mostHuge) ∧
     (count = mincount → mincount < maxcount →
      spec_class tag count mincount maxcount = smallest)) ∧
  (9 - 1) / 6 = 1 ∧
  (len <$> values partition_counts) ≡ₚ [1; 1; 2; 5; 9; 9] ∧
  map_Forall (λ tag es,
      (len es = 9 → spec_class tag (len es) 1 9 = mostHuge) ∧
      (len es = 1 → spec_class tag (len es) 1 9 = smallest))
    partition_counts.
Proof.
  split; [apply create_tagcloud_spec_cloud|].
  split; [done|].
  split.
  { intros tag count mincount maxcount Htag Hle. unfold spec_class.
    rewrite decide_False by done.
    by destruct (threshold_rule_is_Some count mincount maxcount Hle)
      as [c ->]. }
  split.
  { intros tagcount mincount tag es Hmin Hes.
    apply (py_min_le _ _ _ Hmin). apply list_elem_of_fmap.
    exists es. split; [done|]. unfold values. apply list_elem_of_fmap.
    exists (tag, es). split; [done|]. by apply elem_of_map_to_list. }
  split.
  { intros tagcount mincount maxcount tag es Hes.
    destruct (popular_fold mincount maxcount ((maxcount - mincount) / 6)
                (map_to_list tagcount))
      as (_ & _ & Hlow & _); [apply NoDup_fst_map_to_list|].
    by apply (Hlow tag es). }
  split.
  { intros tag count mincount maxcount Htag. unfold spec_class.
    rewrite decide_False by done. unfold threshold_rule, thresholds.
    split.
    - intros ->. simpl. by rewrite bool_decide_eq_true_2.
    - intros -> Hlt.
      assert (0 ≤ (maxcount - mincount) / 6) by (apply Z.div_pos; lia).
      simpl. rewrite bool_decide_eq_false_2 by lia.
      repeat (rewrite bool_decide_eq_false_2 by lia).
      by rewrite bool_decide_eq_true_2. }
  split; [reflexivity|].
  split; [apply (bool_decide_unpack _); vm_compute; exact I|].
  apply (bool_decide_unpack _). vm_compute. exact I.
Qed.

Lemma size_class_rule_witness :
  create_tagcloud scenario_config partition_counts 1 9
  = Some (spec_cloud "http://example.org/tags/" partition_counts 1 9) ∧
  threshold_rule 5 1 9 = Some (spec_class "dog" 5 1 9) ∧
  spec_class "eel" 9 1 9 = mostHuge ∧
  spec_class "ant" 1 1 9 = smallest.
Proof.
  split; [|split; [|split]].
  - apply (proj1 size_class_rule scenario_config partition_counts 1 9).
  - apply (proj1 (proj2 (proj2 size_class_rule)) "dog" 5 1 9); [done|lia].
  - apply (proj1 (proj2 (proj2 (proj2 (proj2 (proj2 size_class_rule)))))
             "eel" 9 1 9); done.
  - apply (proj1 (proj2 (proj2 (proj2 (proj2 (proj2 size_class_rule)))))
             "ant" 1 1 9); [done|done|lia].
Defined.




(** ** Related stories *)

Lemma string_app_assoc (a b c : string) : (a +:+ b) +:+ c = a +:+ b +:+ c.
Proof.
  induction a as [|x a IH]; [done|].
  change (String x ((a +:+ b) +:+ c) = String x (a +:+ b +:+ c)).
  by rewrite IH.
Qed.

Lemma string_app_nil_r (a : string) : a +:+ "" = a.
Proof.
  induction a as [|x a IH]; [done|].
  change (String x (a +:+ "") = String x a). by rewrite IH.
Qed.

Lemma take_len_min {A} (l : list A) :
  take (Z.to_nat (Z.min (len l) 6)) l = take 6 l.
Proof.
  unfold len. destruct (decide (length l ≤ 6)%nat) as [Hle|Hgt].
  - rewrite !take_ge; [done|lia|lia].
  - f_equal. lia.
Qed.

Lemma render_stories_shown (FileEntry : string → file_entry) (e : entry)
    (cfg : config) (myentries : list string) :
  render_stories FileEntry e cfg myentries
  = match base_url cfg with
    | Some base =>
        Ok (foldr String.append ""
              (story_piece FileEntry base
                 <$> shown_entries FileEntry e myentries))
    | None =>
        if bool_decide (shown_entries FileEntry e myentries = []) then Ok ""
        else Raise KeyError
    end.
Proof.
  unfold render_stories, story_link.
  enough (∀ acc,
    for_each (λ relatedstories entry_location,
        let tmpentry := FileEntry entry_location in
        if bool_decide (fe_filename tmpentry = entry_filename e)
        then Ok relatedstories
        else
          link ← (base ← config_get (base_url cfg);
                  Ok ("<a href='" +:+ base +:+ "/"
                        +:+ fe_absolute_path tmpentry +:+ "/"
                        +:+ fe_fn tmpentry +:+ "'>" +:+ fe_title tmpentry
                        +:+ "</a>"));
          Ok (relatedstories +:+ String "010" (link +:+ "<br/>")))
      myentries acc
    = match base_url cfg with
      | Some base =>
          Ok (acc +:+ foldr String.append ""
                (story_piece FileEntry base
                   <$> shown_entries FileEntry e myentries))
      | None =>
          if bool_decide (shown_entries FileEntry e myentries = [])
          then Ok acc else Raise KeyError
      end)
    as Hgen by apply (Hgen "").
  unfold shown_entries.
  induction myentries as [|loc l IH]; intros acc.
  - simpl. destruct (base_url cfg); [by rewrite string_app_nil_r|done].
  - change (for_each ?f (loc :: l) acc) with (f acc loc ≫= for_each f l).
    cbv beta zeta.
    destruct (decide (fe_filename (FileEntry loc) = entry_filename e))
      as [Hself|Hself].
    + rewrite (bool_decide_eq_true_2 _ Hself).
      rewrite filter_cons_False by (by intros ?). apply IH.
    + rewrite (bool_decide_eq_false_2 _ Hself).
      rewrite filter_cons_True by done.
      destruct (base_url cfg) as [base|].
      * simpl. rewrite IH. simpl. by rewrite string_app_assoc.
      * done.
Qed.

Lemma story_pieces_empty (FileEntry : string → file_entry) (base : string)
    (l : list string) :
  foldr String.append "" (story_piece FileEntry base <$> l) = "" ↔ l = [].
Proof. split; [by destruct l|by intros ->]. Qed.

(** The ranked stories come in descending order of votes. *)
Lemma ranking_sorted (l : list (Z * string)) :
  Sorted (λ a b, b.1 ≤ a.1) (sort_pairs_desc l).
Proof.
  pose proof (sort_pairs_desc_sorted l) as Hsorted.
  induction Hsorted as [|a r Hr IH Hhd]; constructor; [done|].
  destruct Hhd as [|b r' Hab]; constructor.
  apply pair_ge_alt in Hab as [Hlt|[Heq _]].
  - by apply Z.lt_le_incl.
  - rewrite Heq. apply Z.le_refl.
Qed.

(** Ignored tags cast no vote. *)
Lemma related_votes_all_ignored (tags ignoretags : list string)
    (data : folksonomy_data) :
  Forall (λ tag, tag ∈ ignoretags) tags →
  related_votes tags ignoretags data = Ok ∅.
Proof.
  unfold related_votes.
  enough (∀ (l : list string) (related : gmap string (Z * string)),
    Forall (λ tag, tag ∈ ignoretags) l →
    for_each (λ related tag,
        if bool_decide (tag ∈ ignoretags) then Ok related
        else
          tmp ← _get_related_stories tag data;
          Ok (foldl (λ related relationship,
                  if bool_decide (relationship.1 ∉ tags) then related
                  else foldl vote related relationship.2)
                related tmp))
      l related = Ok related) as Hgen by (intros; by apply Hgen).
  intros l related Hall. revert related.
  induction Hall as [|tag l Htag Hall IH]; intros related; [done|].
  simpl. rewrite bool_decide_eq_true_2 by done. apply IH.
Qed.

(** When at least one story has a vote, what is rendered is: the forced
    relations in their listed order, then the stories in descending order of
    votes, cut to six locations, without those of the entry itself. *)
Lemma get_related_stories_shape (FileEntry : string → file_entry)
    (e : entry) (data : folksonomy_data) (cfg : config)
    (ignoretags : list string) (related : gmap string (Z * string)) :
  ignore_tags cfg = Some ignoretags →
  related_votes (split_comma (entry_tags e)) ignoretags data = Ok related →
  related ≠ ∅ →
  let ranked := (sort_pairs_desc (values related)).*2 in
  let shown :=
    shown_entries FileEntry e (take 6 (forced_entries e cfg ++ ranked)) in
  get_related_stories FileEntry e data cfg
  = if bool_decide (shown = []) then Ok None
    else match base_url cfg, relatedstories_header cfg with
         | Some base, Some header =>
             Ok (Some ("<div id='relatedstories'>" +:+ header +:+ "<p>"
                         +:+ foldr String.append ""
                               (story_piece FileEntry base <$> shown)
                         +:+ "</p></div>"))
         | _, _ => Raise KeyError
         end.
Proof.
  intros Hcfg Hvotes Hne ranked shown.
  unfold get_related_stories. rewrite Hcfg. simpl. rewrite Hvotes. simpl.
  rewrite bool_decide_eq_true_2 by done.
  unfold related_entries. rewrite take_len_min.
  fold ranked. rewrite render_stories_shown. fold shown.
  destruct (decide (shown = [])) as [Hshown|Hshown].
  - rewrite (bool_decide_eq_true_2 (shown = [])) by done.
    rewrite Hshown.
    destruct (bool_decide (take 6 (forced_entries e cfg ++ ranked) ≠ []));
      [|done].
    by destruct (base_url cfg).
  - rewrite (bool_decide_eq_false_2 (shown = [])) by done.
    rewrite bool_decide_eq_true_2.
    2:{ intros Hnil. apply Hshown. unfold shown. by rewrite Hnil. }
    destruct (base_url cfg) as [base|]; [|done]. simpl.
    rewrite bool_decide_eq_true_2 by (by rewrite story_pieces_empty).
    by destruct (relatedstories_header cfg).
Qed.

(** Without a vote nothing is rendered, whatever the forced relations. *)
Lemma get_related_stories_no_votes (FileEntry : string → file_entry)
    (e : entry) (data : folksonomy_data) (cfg : config)
    (ignoretags : list string) :
  ignore_tags cfg = Some ignoretags →
  related_votes (split_comma (entry_tags e)) ignoretags data = Ok ∅ →
  get_related_stories FileEntry e data cfg = Ok None.
Proof.
  intros Hcfg Hvotes.
  unfold get_related_stories. rewrite Hcfg. simpl. rewrite Hvotes. simpl.
  by rewrite bool_decide_eq_false_2 by (by intros ?).
Qed.

(** C2, on the code. An entry whose tags are all ignored gets no related
    stories at all, although it names a forced relation: no story has a
    vote, and the forced relations are only rendered inside the branch that
    requires one. *)
Theorem forced_relations_dropped (FileEntry : string → file_entry)
    (data : folksonomy_data) :
  forced_entries draft_entry draft_config = ["/blog/general/y.txt"] ∧
  related_votes (split_comma (entry_tags draft_entry)) ["draft"] data = Ok ∅ ∧
  get_related_stories FileEntry draft_entry data draft_config = Ok None.
Proof.
  split; [reflexivity|].
  assert (related_votes (split_comma (entry_tags draft_entry)) ["draft"] data
          = Ok ∅) as Hvotes.
  { apply related_votes_all_ignored. repeat constructor. }
  split; [done|].
  by apply (get_related_stories_no_votes _ _ _ _ ["draft"]).
Qed.

(** * Further properties of the code *)

(** ** The index built by the walk *)

Lemma elem_of_filed_iff (cfg : config) (tag loc : string) (it : item) :
  loc ∈ filed cfg tag it ↔
  eligible cfg it ∧ item_location it = loc ∧
  match item_tags it with
  | Some tagstring => tag ∈ effective_tags cfg tagstring
  | None => tag = "untagged"
  end.
Proof.
  unfold filed. case_decide as Hel.
  - destruct (item_tags it) as [tagstring|].
    + rewrite list_elem_of_fmap. split.
      * intros (t & -> & Hin). apply list_elem_of_filter in Hin as [-> Hin].
        done.
      * intros (_ & <- & Hin). exists tag. split; [done|].
        by apply list_elem_of_filter.
    + case_decide as Htag.
      * rewrite list_elem_of_singleton.
        split; [by intros ->|by intros (_ & <- & _)].
      * split; [by intros ?%elem_of_nil|]. by intros (_ & _ & ?).
  - split; [by intros ?%elem_of_nil|]. by intros (? & _).
Qed.

(** X1. A location is in the entry list of a tag exactly when the walk met
    a file at that location that passes the extension and directory tests
    and either names the tag, not ignored, on its tags line, or has no tags
    line while the tag is [untagged]. No tag of the index has an empty entry
    list, and an ignored tag other than [untagged] is not in the index. *)
Theorem index_membership (cfg : config) (corpus : list item) :
  (∀ tag loc,
     (∃ es, (build_index cfg corpus).1 !! tag = Some es ∧ loc ∈ es) ↔
     ∃ it, it ∈ corpus ∧ eligible cfg it ∧ item_location it = loc ∧
           match item_tags it with
           | Some tagstring => tag ∈ effective_tags cfg tagstring
           | None => tag = "untagged"
           end) ∧
  (∀ tag, (build_index cfg corpus).1 !! tag ≠ Some []) ∧
  (∀ tag,
     tag ∈ default [] (ignore_tags cfg) → tag ≠ "untagged" →
     (build_index cfg corpus).1 !! tag = None).
Proof.
  assert (∀ tag loc,
     (∃ es, (build_index cfg corpus).1 !! tag = Some es ∧ loc ∈ es) ↔
     ∃ it, it ∈ corpus ∧ eligible cfg it ∧ item_location it = loc ∧
           match item_tags it with
           | Some tagstring => tag ∈ effective_tags cfg tagstring
           | None => tag = "untagged"
           end) as Hmem.
  { intros tag loc. rewrite build_index_lookup. split.
    - intros (es & Hes & Hin). apply nonempty_Some in Hes as ->.
      apply list_elem_of_bind in Hin as (it & Hin & Hit).
      exists it. split; [done|]. by apply elem_of_filed_iff.
    - intros (it & Hit & Hfiled).
      assert (loc ∈ corpus ≫= filed cfg tag) as Hin.
      { apply list_elem_of_bind. exists it. split; [|done].
        by apply elem_of_filed_iff. }
      exists (corpus ≫= filed cfg tag). split; [|done].
      destruct (corpus ≫= filed cfg tag); [|done].
      by apply elem_of_nil in Hin. }
  split; [exact Hmem|]. split.
  - intros tag. rewrite build_index_lookup.
    by destruct (corpus ≫= filed cfg tag).
  - intros tag Hign Htag.
    destruct ((build_index cfg corpus).1 !! tag) as [es|] eqn:Hes; [|done].
    exfalso. destruct es as [|loc es].
    { revert Hes. rewrite build_index_lookup.
      by destruct (corpus ≫= filed cfg tag). }
    destruct (proj1 (Hmem tag loc)) as (it & _ & _ & _ & Hit).
    { exists (loc :: es). split; [done|by left]. }
    destruct (item_tags it) as [tagstring|]; [|done].
    unfold effective_tags in Hit.
    by apply list_elem_of_filter in Hit as [? _].
Qed.

(** X2. Indexing is incremental: the entry list of a tag after a walk in
    two parts is the list after the first part followed by the list of the
    second part alone, so entries come in the order the walk met them. *)
Theorem index_walk_order (cfg : config) (walk1 walk2 : list item)
    (tag : string) :
  default [] ((build_index cfg (walk1 ++ walk2)).1 !! tag)
  = default [] ((build_index cfg walk1).1 !! tag)
    ++ default [] ((build_index cfg walk2).1 !! tag).
Proof.
  rewrite !build_index_lookup, bind_app.
  assert (∀ l : list string, default [] (nonempty l) = l) as Hdef
    by (by intros []).
  by rewrite !Hdef.
Qed.

(** X3. After the walk [maxcount] is not negative and is at least the
    count of every tag other than [untagged]; unless it is 0, some tag of
    the index has at least [maxcount] entries. *)
Theorem maxcount_bounds (cfg : config) (corpus : list item) :
  0 ≤ (build_index cfg corpus).2 ∧
  (∀ tag es,
     tag ≠ "untagged" → (build_index cfg corpus).1 !! tag = Some es →
     len es ≤ (build_index cfg corpus).2) ∧
  ((build_index cfg corpus).2 = 0 ∨
   ∃ tag es, (build_index cfg corpus).1 !! tag = Some es ∧
             (build_index cfg corpus).2 ≤ len es).
Proof. exact (build_index_maxcount cfg corpus). Qed.

(** ** The clouds of a build *)

Lemma py_min_elem (l : list Z) (m : Z) : py_min l = Ok m → m ∈ l.
Proof.
  destruct l as [|x l]; [done|]. simpl. intros [= <-].
  revert x. induction l as [|y l IH]; intros x; simpl; [by left|].
  pose proof (IH (Z.min x y)) as Hmin.
  apply elem_of_cons in Hmin as [Heq|Hin].
  - rewrite Heq. destruct (Z.min_spec x y) as [[_ ->]|[_ ->]];
      [by left|right; by left].
  - right. by right.
Qed.

Lemma elem_of_lens (tagcount : gmap string (list string)) (n : Z) :
  n ∈ len <$> values tagcount ↔
  ∃ tag es, tagcount !! tag = Some es ∧ n = len es.
Proof.
  unfold values. rewrite list_elem_of_fmap. split.
  - intros (es & -> & Hin). apply list_elem_of_fmap in Hin as ([tag es'] & -> & Hin).
    apply elem_of_map_to_list in Hin. by exists tag, es'.
  - intros (tag & es & Hes & ->). exists es. split; [done|].
    apply list_elem_of_fmap. exists (tag, es). split; [done|].
    by apply elem_of_map_to_list.
Qed.

Lemma create_tagcloud_is_Some (cfg : config)
    (tagcount : gmap string (list string)) (mincount maxcount : Z) :
  is_Some (create_tagcloud cfg tagcount mincount maxcount) ↔ tagcount ≠ ∅.
Proof.
  unfold create_tagcloud. case_bool_decide as Hne.
  - split; [done|by eexists].
  - split; [by intros [? ?]|done].
Qed.

(** X4. A build that succeeds always has a full cloud. It has a popular
    cloud whenever [maxcount] exceeds the least count, and none when every
    tag has exactly [maxcount] entries. *)
Theorem build_clouds (set_to_list : gset string → list string)
    (cfg : config) (corpus : list item) (data : folksonomy_data) :
  create_folksonomy set_to_list cfg corpus = Ok data →
  is_Some (tagcloud data) ∧
  ∃ mincount,
    py_min (len <$> values (build_index cfg corpus).1) = Ok mincount ∧
    (mincount < (build_index cfg corpus).2 →
     is_Some (populartagcloud data)) ∧
    ((∀ tag es,
        (build_index cfg corpus).1 !! tag = Some es →
        len es = (build_index cfg corpus).2) →
     populartagcloud data = None).
Proof.
  pose proof (build_index_maxcount cfg corpus) as (Hpos & Hle & Hatt).
  unfold create_folksonomy.
  destruct (build_index cfg corpus) as [entrymap maxcount] eqn:Hindex.
  simpl in *.
  destruct (py_min (len <$> values entrymap)) as [mincount|] eqn:Hmin;
    [|done].
  simpl. rewrite create_folksonomy_table_rows. simpl. intros [= <-]. simpl.
  apply py_min_elem in Hmin as Hin.
  apply elem_of_lens in Hin as (tag0 & es0 & Hes0 & Hlen0).
  split.
  { apply create_tagcloud_is_Some. intros ->. by rewrite lookup_empty in Hes0. }
  exists mincount. split; [done|].
  destruct (popular_fold mincount maxcount ((maxcount - mincount) / 6)
              (map_to_list entrymap))
    as (Hlookup & _); [apply NoDup_fst_map_to_list|].
  unfold create_popular_tagcloud, popular_tags. split.
  - intros Hlt. apply create_tagcloud_is_Some.
    destruct Hatt as [Hzero|(tag & es & Hes & Hlen)].
    { unfold len in Hlen0. lia. }
    assert ((maxcount - mincount) / 6 < maxcount - mincount)
      by (apply Z.div_lt; lia).
    intros Hempty.
    assert ((foldl (popular_step mincount ((maxcount - mincount) / 6))
               (∅, maxcount) (map_to_list entrymap)).1 !! tag = Some es)
      as Hpop.
    { apply Hlookup. split; [by apply elem_of_map_to_list|lia]. }
    rewrite Hempty in Hpop. by rewrite lookup_empty in Hpop.
  - intros Hall.
    assert (mincount = maxcount) as -> by (rewrite Hlen0; by eapply Hall).
    unfold create_tagcloud. rewrite bool_decide_eq_false_2; [done|].
    intros Hne. apply Hne. apply map_empty. intros tag.
    apply eq_None_not_Some. intros [es Hes].
    apply Hlookup in Hes as [Hin Hkeep].
    apply elem_of_map_to_list in Hin. specialize (Hall _ _ Hin).
    replace (maxcount - maxcount) with 0 in Hkeep by lia.
    rewrite Z.div_0_l in Hkeep by done. lia.
Qed.

Lemma build_clouds_witness :
  is_Some (tagcloud scenario_data) ∧
  ∃ mincount,
    py_min (len <$> values (build_index scenario_config scenario_corpus).1)
    = Ok mincount ∧
    (mincount < (build_index scenario_config scenario_corpus).2 →
     is_Some (populartagcloud scenario_data)) ∧
    ((∀ tag es,
        (build_index scenario_config scenario_corpus).1 !! tag = Some es →
        len es = (build_index scenario_config scenario_corpus).2) →
     populartagcloud scenario_data = None).
Proof.
  apply (build_clouds elements scenario_config scenario_corpus scenario_data).
  vm_compute. reflexivity.
Defined.

(** ** The shape of the table *)

(** X5. The table is built without an exception for every tag index; it
    has one row per tag, and row [x] has exactly [x + 1] cells, so reading a
    column beyond the row index raises [IndexError]. *)
Theorem table_triangular (set_to_list : gset string → list string)
    (entrymap : gmap string (list string)) :
  ∃ t, create_folksonomy_table set_to_list entrymap = Ok t ∧
    length t = length (keys entrymap) ∧
    ∀ x row,
      t !! x = Some row →
      length row = S x ∧
      ∀ y, (x < y)%nat → list_get row y = Raise IndexError.
Proof.
  eexists. split; [apply create_folksonomy_table_rows|]. split.
  - unfold rows. rewrite length_fmap, length_seq.
    by rewrite (Permutation_length (sort_strs_perm _)).
  - intros x row Hrow.
    pose proof (lookup_lt_Some _ _ _ Hrow) as Hx.
    unfold rows in Hx. rewrite length_fmap, length_seq in Hx.
    rewrite rows_lookup in Hrow by done.
    assert (row = cell_of set_to_list entrymap (sort_strs (keys entrymap)) x
                    <$> seq 0 (S x)) as -> by congruence.
    assert (length (cell_of set_to_list entrymap (sort_strs (keys entrymap)) x
                      <$> seq 0 (S x)) = S x) as Hlen
      by (by rewrite length_fmap, length_seq).
    split; [done|].
    intros y Hy. unfold list_get.
    by rewrite lookup_ge_None_2 by lia.
Qed.

(** ** The rankings of the related tags *)

Lemma common_nonneg (entrymap : gmap string (list string)) (t u : string) :
  0 ≤ common entrymap t u.
Proof. unfold common, len. case_decide; lia. Qed.

Lemma elem_of_related_pairs (entrymap : gmap string (list string))
    (t u : string) (n : Z) :
  (n, u) ∈ related_pairs entrymap t ↔
  is_Some (entrymap !! u) ∧ n = common entrymap t u ∧ 0 < n.
Proof.
  unfold related_pairs, sort_pairs_desc.
  rewrite merge_sort_Permutation, list_elem_of_bind.
  pose proof (common_nonneg entrymap t u) as Hpos. split.
  - intros (u' & Hin & Hu'). apply elem_of_sorted_keys in Hu'.
    unfold related_pair in Hin. case_bool_decide as Hne.
    + apply list_elem_of_singleton in Hin as [= -> ->].
      pose proof (common_nonneg entrymap t u'). split; [done|]. split; [done|lia].
    + by apply elem_of_nil in Hin.
  - intros (Hu & -> & Hn). exists u. split; [|by apply elem_of_sorted_keys].
    unfold related_pair. rewrite bool_decide_eq_true_2 by lia. by left.
Qed.

Lemma related_pairs_tags (entrymap : gmap string (list string))
    (t : string) (l : list string) :
  (l ≫= related_pair entrymap t).*2
  = filter (λ u, common entrymap t u ≠ 0) l.
Proof.
  induction l as [|u l IH]; [done|].
  rewrite bind_cons, fmap_app, IH. unfold related_pair at 1.
  case_bool_decide as Hne.
  - by rewrite filter_cons_True.
  - rewrite filter_cons_False; [done|]. intros Hne'. by apply Hne'.
Qed.

(** X6. On data that hold the table of their own index, the single-tag
    ranking of a tag of the index holds exactly one pair for each tag that
    shares at least one entry with it, the tag itself included, with the
    number of shared entries; the pairs come in descending order of that
    number; nothing is printed and no exception is raised. *)
Theorem single_tag_ranking (set_to_list : gset string → list string)
    (data : folksonomy_data) (t : string) :
  (∀ s, set_to_list s ≡ₚ elements s) →
  consistent set_to_list data →
  t ∈ sortedtags data →
  ∃ r, _get_related_tags t data = IO [] (Ok r) ∧
    (∀ n u,
       (n, u) ∈ r ↔
       is_Some (entrytagmap data !! u) ∧
       n = common (entrytagmap data) t u ∧ 0 < n) ∧
    NoDup r.*2 ∧
    Sorted (λ a b, b.1 ≤ a.1) r.
Proof.
  intros Hset Hcons Ht. eexists.
  split; [by apply (_get_related_tags_present set_to_list Hset data Hcons)|].
  split; [intros n u; apply elem_of_related_pairs|].
  split; [|apply ranking_sorted].
  unfold related_pairs, sort_pairs_desc.
  rewrite merge_sort_Permutation, related_pairs_tags.
  apply NoDup_filter, NoDup_sorted_keys.
Qed.

Lemma single_tag_ranking_witness :
  ∃ r, _get_related_tags "foo" scenario_data = IO [] (Ok r) ∧
    (∀ n u,
       (n, u) ∈ r ↔
       is_Some (entrytagmap scenario_data !! u) ∧
       n = common (entrytagmap scenario_data) "foo" u ∧ 0 < n) ∧
    NoDup r.*2 ∧
    Sorted (λ a b, b.1 ≤ a.1) r.
Proof.
  apply (single_tag_ranking elements scenario_data "foo").
  - intros s. reflexivity.
  - split; vm_compute; reflexivity.
  - apply (bool_decide_unpack _). vm_compute. exact I.
Defined.

Lemma Sorted_pair_ge_filter (P : Z * string → Prop)
    `{!∀ x, Decision (P x)} (l : list (Z * string)) :
  Sorted pair_ge l → Sorted pair_ge (filter P l).
Proof.
  intros Hsorted. apply StronglySorted_Sorted.
  apply Sorted_StronglySorted in Hsorted; [|apply _].
  induction Hsorted as [|a l Hl IH Hall]; [constructor|].
  destruct (decide (P a)).
  - rewrite filter_cons_True by done. constructor; [done|].
    apply Forall_forall. intros x [_ Hx]%list_elem_of_filter.
    by apply (proj1 (Forall_forall _ _) Hall).
  - by rewrite filter_cons_False.
Qed.

Lemma filter_related_pairs (entrymap : gmap string (list string))
    (t : string) (l : list string) :
  filter (λ x : Z * string, 1 < x.1) (l ≫= related_pair entrymap t)
  = (λ u, (common entrymap t u, u))
      <$> filter (λ u, 1 < common entrymap t u) l.
Proof.
  induction l as [|u l IH]; [done|].
  rewrite bind_cons, filter_app, IH. unfold related_pair at 1.
  destruct (decide (1 < common entrymap t u)) as [Hgt|Hle].
  - rewrite bool_decide_eq_true_2 by lia.
    rewrite (filter_cons_True (λ u, 1 < common entrymap t u)) by done.
    by rewrite filter_cons_True.
  - rewrite (filter_cons_False (λ u, 1 < common entrymap t u)) by done.
    case_bool_decide; [|done].
    by rewrite filter_cons_False.
Qed.

Lemma related_tag_pairs_perm (entrymap : gmap string (list string))
    (tags ignoretags : list string) :
  filter (λ x : Z * string, 1 < x.1)
    (tags ≫= λ tag,
       if bool_decide (tag ∈ ignoretags) then []
       else if bool_decide (tag ∈ sort_strs (keys entrymap))
            then related_pairs entrymap tag
            else [])
  ≡ₚ related_tag_pairs entrymap tags ignoretags.
Proof.
  unfold related_tag_pairs.
  induction tags as [|t tags IH]; [done|].
  rewrite bind_cons, filter_app, IH. clear IH.
  destruct (decide ((t ∉ ignoretags) ∧ is_Some (entrymap !! t)))
    as [[Hign Hkey]|Hnot].
  - rewrite filter_cons_True by done. rewrite bind_cons.
    rewrite bool_decide_eq_false_2 by done.
    rewrite bool_decide_eq_true_2 by (by apply elem_of_sorted_keys).
    apply Permutation_app_tail. unfold related_pairs, sort_pairs_desc.
    rewrite merge_sort_Permutation. by rewrite filter_related_pairs.
  - rewrite filter_cons_False by done.
    case_bool_decide as Hign; [done|].
    rewrite bool_decide_eq_false_2; [done|].
    rewrite elem_of_sorted_keys. intros Hkey. by apply Hnot.
Qed.

Lemma related_tags_log_filter (entrymap : gmap string (list string))
    (tags ignoretags : list string) :
  related_tags_log entrymap tags ignoretags
  = (λ t, "ERROR: " +:+ t +:+ " not in sortedtags.")
      <$> filter (λ t, (t ∉ ignoretags) ∧ entrymap !! t = None) tags.
Proof.
  unfold related_tags_log.
  induction tags as [|t l IH]; [done|].
  rewrite bind_cons, IH.
  destruct (decide ((t ∉ ignoretags) ∧ entrymap !! t = None))
    as [[Hign Hkey]|Hnot].
  - rewrite filter_cons_True by done.
    rewrite bool_decide_eq_false_2 by done.
    rewrite bool_decide_eq_false_2; [done|].
    rewrite elem_of_sorted_keys, Hkey. by intros [? ?].
  - rewrite filter_cons_False by done.
    case_bool_decide as Hign; [done|].
    rewrite bool_decide_eq_true_2; [done|].
    apply elem_of_sorted_keys.
    destruct (entrymap !! t) eqn:Hkey; [by eexists|].
    by destruct Hnot.
Qed.

(** X7. On such data and with [ignore_tags] configured, the related tags
    of an entry are computed without an exception. The result lists the
    tags of the pairs (count, tag) in descending order, with one pair for
    each tag of the entry, in each of its occurrences, that is not ignored
    and is in the index, and each tag sharing more than one entry with it;
    so a tag is in the result exactly when it shares more than one entry
    with such a tag of the entry. The lines printed are, in the order of
    the tags of the entry and once for each occurrence, those of the tags
    that are neither ignored nor in the index. *)
Theorem related_tags_membership (set_to_list : gset string → list string)
    (data : folksonomy_data) (e : entry) (cfg : config)
    (ignoretags : list string) :
  (∀ s, set_to_list s ≡ₚ elements s) →
  consistent set_to_list data →
  ignore_tags cfg = Some ignoretags →
  ∃ ranked : list (Z * string),
    get_related_tags e data cfg
    = IO ((λ t, "ERROR: " +:+ t +:+ " not in sortedtags.")
            <$> filter (λ t, (t ∉ ignoretags)
                             ∧ entrytagmap data !! t = None)
                  (split_comma (entry_tags e)))
         (Ok ranked.*2) ∧
    Sorted pair_ge ranked ∧
    ranked ≡ₚ related_tag_pairs (entrytagmap data)
                (split_comma (entry_tags e)) ignoretags ∧
    (∀ u,
       u ∈ ranked.*2 ↔
       ∃ t, t ∈ split_comma (entry_tags e) ∧ (t ∉ ignoretags) ∧
            is_Some (entrytagmap data !! t) ∧
            is_Some (entrytagmap data !! u) ∧
            1 < common (entrytagmap data) t u).
Proof.
  intros Hset Hcons Hcfg.
  set (tags := split_comma (entry_tags e)).
  set (related :=
    tags ≫= λ tag,
      if bool_decide (tag ∈ ignoretags) then []
      else if bool_decide (tag ∈ sort_strs (keys (entrytagmap data)))
           then related_pairs (entrytagmap data) tag
           else []).
  exists (filter (λ x : Z * string, 1 < x.1) (sort_pairs_desc related)).
  assert (filter (λ x : Z * string, 1 < x.1) (sort_pairs_desc related)
          ≡ₚ related_tag_pairs (entrytagmap data) tags ignoretags) as Hperm.
  { unfold sort_pairs_desc. rewrite merge_sort_Permutation.
    apply related_tag_pairs_perm. }
  split; [|split; [|split]].
  - rewrite (get_related_tags_closed set_to_list Hset data Hcons e cfg
               ignoretags Hcfg).
    by rewrite related_tags_log_filter.
  - apply Sorted_pair_ge_filter, sort_pairs_desc_sorted.
  - done.
  - intros u. rewrite list_elem_of_fmap.
    setoid_rewrite Hperm. unfold related_tag_pairs. split.
    + intros ([n u'] & -> & Hin). simpl.
      apply list_elem_of_bind in Hin as (t & Hin & Ht).
      apply list_elem_of_filter in Ht as [[Hign Hkey] Ht].
      apply list_elem_of_fmap in Hin as (u & [= -> ->] & Hu).
      apply list_elem_of_filter in Hu as [Hn Hu].
      apply elem_of_sorted_keys in Hu. by exists t.
    + intros (t & Ht & Hign & Hkey & Hu & Hn).
      exists (common (entrytagmap data) t u, u). split; [done|].
      apply list_elem_of_bind. exists t. split.
      * apply list_elem_of_fmap. exists u. split; [done|].
        apply list_elem_of_filter. split; [done|].
        by apply elem_of_sorted_keys.
      * by apply list_elem_of_filter.
Qed.

Lemma related_tags_membership_witness :
  ∃ ranked : list (Z * string),
    get_related_tags scenario_entry scenario_data scenario_config
    = IO ((λ t, "ERROR: " +:+ t +:+ " not in sortedtags.")
            <$> filter (λ t, (t ∉ [])
                             ∧ entrytagmap scenario_data !! t = None)
                  (split_comma (entry_tags scenario_entry)))
         (Ok ranked.*2) ∧
    Sorted pair_ge ranked ∧
    ranked ≡ₚ related_tag_pairs (entrytagmap scenario_data)
                (split_comma (entry_tags scenario_entry)) [] ∧
    (∀ u,
       u ∈ ranked.*2 ↔
       ∃ t, t ∈ split_comma (entry_tags scenario_entry) ∧ (t ∉ []) ∧
            is_Some (entrytagmap scenario_data !! t) ∧
            is_Some (entrytagmap scenario_data !! u) ∧
            1 < common (entrytagmap scenario_data) t u).
Proof.
  apply (related_tags_membership elements scenario_data scenario_entry
           scenario_config []).
  - intros s. reflexivity.
  - split; vm_compute; reflexivity.
  - reflexivity.
Defined.

(** ** A configuration without [ignore_tags] *)

(** X8. Without the key [ignore_tags] the walk indexes as with an empty
    list of ignored tags, but the related tags and the related stories of
    an entry raise [KeyError], whatever the entry and the data. *)
Theorem missing_ignore_tags (FileEntry : string → file_entry)
    (cfg cfg' : config) (corpus : list item) (e : entry)
    (data : folksonomy_data) :
  ignore_tags cfg = None →
  ignore_tags cfg' = Some [] →
  ignore_directories cfg' = ignore_directories cfg →
  taggable_files cfg' = taggable_files cfg →
  build_index cfg corpus = build_index cfg' corpus ∧
  get_related_tags e data cfg = IO [] (Raise KeyError) ∧
  get_related_stories FileEntry e data cfg = Raise KeyError.
Proof.
  intros Hnone Hsome Hdirs Hext. split; [|split].
  - unfold build_index.
    induction corpus as [|it corpus IH] using rev_ind; [done|].
    rewrite !foldl_snoc, IH. unfold index_item.
    by rewrite Hnone, Hsome, Hdirs, Hext.
  - unfold get_related_tags. by rewrite Hnone.
  - unfold get_related_stories. by rewrite Hnone.
Qed.

Lemma missing_ignore_tags_witness :
  build_index scenario_config_no_ignore scenario_corpus
  = build_index scenario_config scenario_corpus ∧
  get_related_tags scenario_entry scenario_data scenario_config_no_ignore
  = IO [] (Raise KeyError) ∧
  get_related_stories (λ _, Build_file_entry "" "" "" "") scenario_entry
    scenario_data scenario_config_no_ignore
  = Raise KeyError.
Proof.
  apply (missing_ignore_tags _ scenario_config_no_ignore scenario_config);
    reflexivity.
Defined.

(** ** The votes of the related stories *)

Section stories_facts.

Variable set_to_list : gset string → list string.
Variable data : folksonomy_data.
Hypothesis data_consistent : consistent set_to_list data.

Lemma cell_of_shared_cell (i j : nat) (t u : string) :
  sortedtags data !! i = Some t → sortedtags data !! j = Some u →
  cell_of set_to_list (entrytagmap data) (sortedtags data)
    (i `max` j) (i `min` j)
  = shared_cell set_to_list (entrytagmap data) t u.
Proof.
  intros Hi Hj. unfold cell_of, shared_cell, tag_entries.
  assert (NoDup (sortedtags data)) as Hnd.
  { destruct data_consistent as [-> _]. apply NoDup_sorted_keys. }
  destruct (decide (i = j)) as [->|Hij].
  - assert (t = u) as -> by congruence.
    replace (j `max` j)%nat with j by lia.
    rewrite !decide_True by (done || lia). by rewrite Hj.
  - assert (t ≠ u) as Htu.
    { intros ->. apply Hij. by eapply NoDup_lookup. }
    rewrite !decide_False by (done || lia).
    destruct (decide (i ≤ j)%nat).
    + replace (i `max` j)%nat with j by lia.
      replace (i `min` j)%nat with i by lia.
      rewrite Hi, Hj. simpl. unfold intersection.
      by rewrite (comm_L (∩)).
    + replace (i `max` j)%nat with i by lia.
      replace (i `min` j)%nat with j by lia.
      by rewrite Hi, Hj.
Qed.

(** The single-tag story ranking of a tag of the index. *)
Lemma _get_related_stories_present (tag : string) :
  tag ∈ sortedtags data →
  _get_related_stories tag data
  = Ok ((λ r, (r.2, r.1.2))
          <$> sort_triples_desc
                (sortedtags data
                   ≫= story_triple set_to_list (entrytagmap data) tag)).
Proof.
  intros Hin. unfold _get_related_stories.
  rewrite bool_decide_eq_false_2 by (by intros ?).
  assert (NoDup (sortedtags data)) as Hnd.
  { destruct data_consistent as [-> _]. apply NoDup_sorted_keys. }
  apply list_elem_of_lookup in Hin as [i Hi].
  rewrite (py_index_lookup _ i tag Hnd Hi).
  change ((relationship ← for_each (λ relationship t,
              position ← py_index t (sortedtags data);
              entries ← shared (folksonomy data) i position;
              Ok (if bool_decide (entries ≠ [])
                  then relationship ++ [(len entries, entries, t)]
                  else relationship)) (sortedtags data) [];
           Ok ((λ r, (r.2, r.1.2)) <$> sort_triples_desc relationship))
          = Ok ((λ r, (r.2, r.1.2))
                  <$> sort_triples_desc
                        (sortedtags data
                           ≫= story_triple set_to_list (entrytagmap data)
                                tag))).
  rewrite (for_each_append _
             (story_triple set_to_list (entrytagmap data) tag)); [done|].
  intros u rel Hu. apply list_elem_of_lookup in Hu as [j Hj].
  rewrite (py_index_lookup _ j u Hnd Hj).
  change ((entries ← shared (folksonomy data) i j;
           Ok (if bool_decide (entries ≠ [])
               then rel ++ [(len entries, entries, u)] else rel))
          = Ok (rel ++ story_triple set_to_list (entrytagmap data) tag u)).
  rewrite (shared_consistent set_to_list data data_consistent)
    by (by eapply lookup_lt_Some).
  rewrite (cell_of_shared_cell i j tag u Hi Hj).
  change (Ok (if bool_decide
                   (shared_cell set_to_list (entrytagmap data) tag u ≠ [])
              then rel ++ [(len (shared_cell set_to_list (entrytagmap data)
                                   tag u),
                            shared_cell set_to_list (entrytagmap data) tag u,
                            u)]
              else rel)
          = Ok (rel ++ story_triple set_to_list (entrytagmap data) tag u)).
  f_equal. unfold story_triple. case_bool_decide; [done|].
  by rewrite app_nil_r.
Qed.

End stories_facts.

Lemma vote_votes (related : gmap string (Z * string)) (story s : string) :
  votes_wf related →
  votes_wf (vote related story) ∧
  votes_of (vote related story) s
  = votes_of related s + (if decide (s = story) then 1 else 0).
Proof.
  intros Hwf. unfold vote, votes_of.
  destruct (related !! story) as [r|] eqn:Hr.
  - destruct (Hwf _ _ Hr) as [_ Hpos]. split.
    + intros s' r'. destruct (decide (s' = story)) as [->|Hne].
      * rewrite lookup_insert_eq. intros [= <-]. simpl. split; [done|lia].
      * rewrite lookup_insert_ne by done. apply Hwf.
    + case_decide as Hs.
      * subst s. rewrite lookup_insert_eq, Hr. done.
      * rewrite lookup_insert_ne by done. lia.
  - split.
    + intros s' r'. destruct (decide (s' = story)) as [->|Hne].
      * rewrite lookup_insert_eq. intros [= <-]. simpl. split; [done|lia].
      * rewrite lookup_insert_ne by done. apply Hwf.
    + case_decide as Hs.
      * subst s. rewrite lookup_insert_eq, Hr. done.
      * rewrite lookup_insert_ne by done. lia.
Qed.

Lemma votes_fold (l : list string) (related : gmap string (Z * string))
    (s : string) :
  votes_wf related →
  votes_wf (foldl vote related l) ∧
  votes_of (foldl vote related l) s
  = votes_of related s + Z.of_nat (occurrences s l).
Proof.
  revert related. induction l as [|story l IH]; intros related Hwf; simpl.
  - split; [done|]. unfold occurrences. simpl. lia.
  - destruct (vote_votes related story s Hwf) as [Hwf' Hvotes].
    destruct (IH _ Hwf') as [Hwf'' Hvotes'']. split; [done|].
    rewrite Hvotes'', Hvotes. unfold occurrences.
    case_decide as Hs.
    + subst story. rewrite filter_cons_True by done. simpl. lia.
    + rewrite filter_cons_False by (by intros ->). lia.
Qed.

(** The loop over the ranking of one tag. *)
Lemma votes_ranking (tags : list string) (tmp : list (string * list string))
    (related : gmap string (Z * string)) (s : string) :
  votes_wf related →
  let related' :=
    foldl (λ related relationship,
        if bool_decide (relationship.1 ∉ tags) then related
        else foldl vote related relationship.2)
      related tmp in
  votes_wf related' ∧
  votes_of related' s
  = votes_of related s
    + Z.of_nat (sum_list_with (λ r : string * list string,
          if bool_decide (r.1 ∈ tags) then occurrences s r.2 else 0%nat)
        tmp).
Proof.
  revert related. induction tmp as [|r tmp IH]; intros related Hwf; simpl.
  - split; [done|]. lia.
  - case_bool_decide as Hin.
    + rewrite bool_decide_eq_false_2 by done.
      destruct (IH related Hwf) as [Hwf' Hvotes]. split; [done|].
      rewrite Hvotes. simpl. lia.
    + rewrite bool_decide_eq_true_2 by done.
      destruct (votes_fold r.2 related s Hwf) as [Hwf' Hvotes].
      destruct (IH _ Hwf') as [Hwf'' Hvotes'']. split; [done|].
      rewrite Hvotes'', Hvotes. lia.
Qed.

Lemma sum_list_with_fmap {A B} (f : B → nat) (g : A → B) (l : list A) :
  sum_list_with f (g <$> l) = sum_list_with (f ∘ g) l.
Proof.
  induction l as [|a l IH]; [done|].
  change (f (g a) + sum_list_with f (g <$> l)
          = f (g a) + sum_list_with (f ∘ g) l)%nat.
  by rewrite IH.
Qed.

Lemma sum_list_with_bind {A B} (f : B → nat) (k : A → list B)
    (l : list A) :
  sum_list_with f (l ≫= k) = sum_list_with (λ a, sum_list_with f (k a)) l.
Proof.
  induction l as [|a l IH]; [done|].
  rewrite bind_cons, sum_list_with_app, IH. done.
Qed.

Lemma sum_list_with_ext {A} (f g : A → nat) (l : list A) :
  (∀ a, a ∈ l → f a = g a) → sum_list_with f l = sum_list_with g l.
Proof.
  induction l as [|a l IH]; intros Hfg; [done|].
  change (f a + sum_list_with f l = g a + sum_list_with g l)%nat.
  rewrite Hfg by left. rewrite IH; [done|].
  intros a' Ha'. apply Hfg. by right.
Qed.

Lemma occurrences_nil (s : string) : occurrences s [] = 0%nat.
Proof. done. Qed.

Lemma occurrences_NoDup (s : string) (l : list string) :
  NoDup l →
  occurrences s l = if bool_decide (s ∈ l) then 1%nat else 0%nat.
Proof.
  unfold occurrences. induction 1 as [|x l Hx Hnd IH]; [done|].
  destruct (decide (x = s)) as [->|Hne].
  - rewrite filter_cons_True by done. simpl. rewrite IH.
    rewrite bool_decide_eq_false_2 by done.
    by rewrite bool_decide_eq_true_2 by left.
  - rewrite filter_cons_False by done. rewrite IH.
    rewrite (bool_decide_ext (s ∈ x :: l) (s ∈ l)); [done|].
    rewrite elem_of_cons. split; [|by right].
    intros [->|?]; done.
Qed.

Section votes_facts.

Variable set_to_list : gset string → list string.
Hypothesis set_to_list_elements : ∀ s, set_to_list s ≡ₚ elements s.
Variable data : folksonomy_data.
Hypothesis data_consistent : consistent set_to_list data.

Lemma occurrences_shared_cell (t u s : string) :
  occurrences s (shared_cell set_to_list (entrytagmap data) t u)
  = if decide (t = u)
    then occurrences s (default [] (entrytagmap data !! t))
    else if bool_decide (s ∈ default [] (entrytagmap data !! t)
                         ∧ s ∈ default [] (entrytagmap data !! u))
         then 1%nat else 0%nat.
Proof.
  unfold shared_cell. case_decide; [done|].
  unfold intersection, occurrences.
  rewrite (set_to_list_elements _).
  fold (occurrences s (elements
    (list_to_set (default [] (entrytagmap data !! t))
     ∩ list_to_set (default [] (entrytagmap data !! u)) : gset string))).
  rewrite occurrences_NoDup by apply NoDup_elements.
  apply (f_equal (λ b : bool, if b then 1%nat else 0%nat)).
  apply bool_decide_ext.
  by rewrite elem_of_elements, elem_of_intersection, !elem_of_list_to_set.
Qed.

(** The votes cast while the ranking of one tag of the index is read. *)
Lemma ranking_votes (tags : list string) (t s : string) :
  sum_list_with (λ r : string * list string,
      if bool_decide (r.1 ∈ tags) then occurrences s r.2 else 0%nat)
    ((λ r : Z * list string * string, (r.2, r.1.2))
       <$> sort_triples_desc
             (sortedtags data
                ≫= story_triple set_to_list (entrytagmap data) t))
  = sum_list_with (λ u,
        if bool_decide (u ∈ tags)
        then occurrences s (shared_cell set_to_list (entrytagmap data) t u)
        else 0%nat)
      (sortedtags data).
Proof.
  rewrite sum_list_with_fmap. unfold sort_triples_desc.
  rewrite merge_sort_Permutation, sum_list_with_bind.
  apply sum_list_with_ext. intros u _. unfold story_triple.
  case_bool_decide as Hcell; simpl.
  - lia.
  - rewrite Hcell. by case_bool_decide.
Qed.

Lemma related_votes_loop (tags ignoretags l : list string)
    (related : gmap string (Z * string)) :
  votes_wf related →
  ∃ related',
    for_each (λ related tag,
        if bool_decide (tag ∈ ignoretags) then Ok related
        else
          tmp ← _get_related_stories tag data;
          Ok (foldl (λ related relationship,
                  if bool_decide (relationship.1 ∉ tags) then related
                  else foldl vote related relationship.2)
                related tmp))
      l related = Ok related' ∧
    votes_wf related' ∧
    ∀ s,
      votes_of related' s
      = votes_of related s
        + Z.of_nat (sum_list_with
                      (cast_votes set_to_list data tags ignoretags s) l).
Proof.
  revert related.
  set (body := λ (related : gmap string (Z * string)) (tag : string),
        if bool_decide (tag ∈ ignoretags) then Ok related
        else
          tmp ← _get_related_stories tag data;
          Ok (foldl (λ related relationship,
                  if bool_decide (relationship.1 ∉ tags) then related
                  else foldl vote related relationship.2)
                related tmp)).
  assert (∀ related t, votes_wf related →
            ∃ related1, body related t = Ok related1 ∧ votes_wf related1 ∧
              ∀ s, votes_of related1 s
                   = votes_of related s
                     + Z.of_nat (cast_votes set_to_list data tags
                                   ignoretags s t)) as Hbody.
  { intros related t Hwf. unfold body, cast_votes.
    case_bool_decide as Hign.
    { exists related. split; [done|]. split; [done|]. intros s.
      rewrite bool_decide_eq_false_2 by (by intros [? _]). lia. }
    destruct (decide (t ∈ sortedtags data)) as [Hin|Hin].
    - rewrite (_get_related_stories_present set_to_list data data_consistent)
        by done.
      eexists. split; [reflexivity|]. split.
      + apply (votes_ranking tags _ related t Hwf).
      + intros s. rewrite bool_decide_eq_true_2 by done.
        rewrite <- ranking_votes.
        apply (votes_ranking tags _ related s Hwf).
    - unfold _get_related_stories.
      rewrite (bool_decide_eq_true_2 (t ∉ sortedtags data)) by done.
      exists related. split; [done|]. split; [done|]. intros s.
      rewrite bool_decide_eq_false_2 by (by intros [_ ?]). lia. }
  clearbody body.
  induction l as [|t l IH]; intros related Hwf.
  { exists related. split; [done|]. split; [done|]. intros s. simpl. lia. }
  destruct (Hbody related t Hwf) as (related1 & Hstep & Hwf1 & Hvotes1).
  destruct (IH related1 Hwf1) as (related' & Hloop & Hwf' & Hvotes).
  exists related'. split.
  { change (for_each body (t :: l) related)
      with (body related t ≫= for_each body l).
    rewrite Hstep. exact Hloop. }
  split; [done|]. intros s. rewrite Hvotes, Hvotes1.
  change (sum_list_with (cast_votes set_to_list data tags ignoretags s)
            (t :: l))
    with (cast_votes set_to_list data tags ignoretags s t
          + sum_list_with (cast_votes set_to_list data tags ignoretags s) l)%nat.
  lia.
Qed.

End votes_facts.

Lemma cast_votes_entry_votes (set_to_list : gset string → list string)
    (data : folksonomy_data) (tags ignoretags : list string) (s : string) :
  (∀ s, set_to_list s ≡ₚ elements s) →
  consistent set_to_list data →
  sum_list_with (cast_votes set_to_list data tags ignoretags s) tags
  = entry_votes (entrytagmap data) tags ignoretags s.
Proof.
  intros Hset Hdata. unfold entry_votes.
  apply sum_list_with_ext. intros t _. unfold cast_votes.
  destruct Hdata as [Hsorted _]. rewrite Hsorted.
  rewrite (bool_decide_ext ((t ∉ ignoretags)
                            ∧ t ∈ sort_strs (keys (entrytagmap data)))
             ((t ∉ ignoretags) ∧ is_Some (entrytagmap data !! t)))
    by (by rewrite elem_of_sorted_keys).
  case_bool_decide; [|done].
  apply sum_list_with_ext. intros u _.
  case_bool_decide; [|done].
  by apply occurrences_shared_cell.
Qed.

(** The first loop of [get_related_stories] in closed form. *)
Lemma related_votes_closed (set_to_list : gset string → list string)
    (data : folksonomy_data) (tags ignoretags : list string) :
  (∀ s, set_to_list s ≡ₚ elements s) →
  consistent set_to_list data →
  ∃ related,
    related_votes tags ignoretags data = Ok related ∧
    votes_wf related ∧
    ∀ s, votes_of related s
         = Z.of_nat (entry_votes (entrytagmap data) tags ignoretags s).
Proof.
  intros Hset Hdata.
  destruct (related_votes_loop set_to_list data Hdata tags ignoretags
              tags ∅) as (related & Hloop & Hwf & Hvotes).
  { intros story r Hr. by rewrite lookup_empty in Hr. }
  exists related. split; [done|]. split; [done|]. intros s.
  rewrite Hvotes, cast_votes_entry_votes by done.
  unfold votes_of. by rewrite lookup_empty.
Qed.

(** X9. On consistent data the votes of the related stories never fail,
    and a story is in the dictionary of votes exactly when it occurs in a
    cell read for a tag of the entry that is neither ignored nor missing
    from the index and a tag of the index that is a tag of the entry; its
    value is the number of such occurrences, paired with the story. *)
Theorem story_votes (set_to_list : gset string → list string)
    (data : folksonomy_data) (tags ignoretags : list string) :
  (∀ s, set_to_list s ≡ₚ elements s) →
  consistent set_to_list data →
  ∃ related,
    related_votes tags ignoretags data = Ok related ∧
    ∀ s,
      related !! s
      = if decide (entry_votes (entrytagmap data) tags ignoretags s = 0%nat)
        then None
        else Some (Z.of_nat
                     (entry_votes (entrytagmap data) tags ignoretags s), s).
Proof.
  intros Hset Hdata.
  destruct (related_votes_closed set_to_list data tags ignoretags Hset Hdata)
    as (related & Hrun & Hwf & Hvotes).
  exists related. split; [done|]. intros s.
  specialize (Hvotes s). unfold votes_of in Hvotes.
  destruct (related !! s) as [[n s']|] eqn:Hs; simpl in Hvotes.
  - destruct (Hwf s (n, s') Hs) as [Heq Hpos]. simpl in Heq, Hpos.
    subst s'. case_decide; [lia|]. by rewrite <- Hvotes.
  - case_decide; [done|lia].
Qed.

Lemma story_votes_witness :
  ∃ related,
    related_votes ["foo"; "bar"] [] scenario_data = Ok related ∧
    ∀ s,
      related !! s
      = if decide (entry_votes (entrytagmap scenario_data) ["foo"; "bar"]
                     [] s = 0%nat)
        then None
        else Some (Z.of_nat
                     (entry_votes (entrytagmap scenario_data)
                        ["foo"; "bar"] [] s), s).
Proof.
  apply (story_votes elements scenario_data ["foo"; "bar"] []).
  - intros s. reflexivity.
  - split; vm_compute; reflexivity.
Defined.

Lemma sum_list_with_indicator {A} (P : A → Prop) `{!∀ a, Decision (P a)}
    (l : list A) :
  sum_list_with (λ a, if bool_decide (P a) then 1%nat else 0%nat) l
  = length (filter P l).
Proof.
  induction l as [|a l IH]; [done|].
  change (sum_list_with (λ a, if bool_decide (P a) then 1 else 0) (a :: l))%nat
    with ((if bool_decide (P a) then 1 else 0)
          + sum_list_with (λ a, if bool_decide (P a) then 1 else 0) l)%nat.
  rewrite IH. case_bool_decide.
  - by rewrite filter_cons_True.
  - by rewrite filter_cons_False.
Qed.

Lemma sum_list_with_const_mul {A} (f : A → nat) (k : nat) (l : list A) :
  sum_list_with (λ a, f a * k)%nat l = (sum_list_with f l * k)%nat.
Proof.
  induction l as [|a l IH]; [done|].
  change (f a * k + sum_list_with (λ a, f a * k) l
          = (f a + sum_list_with f l) * k)%nat.
  rewrite IH. lia.
Qed.

(** With distinct tags and entry lists without repetition, the votes of a
    story are the square of the number of tags it shares with the entry. *)
Lemma entry_votes_square (entrymap : gmap string (list string))
    (tags ignoretags : list string) (s : string) :
  NoDup tags →
  (∀ t, t ∈ tags → t ∉ ignoretags) →
  (∀ t es, entrymap !! t = Some es → NoDup es) →
  entry_votes entrymap tags ignoretags s
  = (shared_tags entrymap tags s * shared_tags entrymap tags s)%nat.
Proof.
  intros Htags Hign Hnd. unfold entry_votes.
  set (k := shared_tags entrymap tags s).
  assert (∀ t, t ∈ tags →
            sum_list_with (λ u,
                if bool_decide (u ∈ tags) then
                  if decide (t = u)
                  then occurrences s (default [] (entrymap !! t))
                  else if bool_decide (s ∈ default [] (entrymap !! t)
                                       ∧ s ∈ default [] (entrymap !! u))
                       then 1%nat else 0%nat
                else 0%nat)
              (sort_strs (keys entrymap))
            = ((if bool_decide (s ∈ default [] (entrymap !! t))
                then 1 else 0) * k)%nat) as Hinner.
  { intros t Ht.
    assert (NoDup (default [] (entrymap !! t))) as Hndt.
    { destruct (entrymap !! t) as [es|] eqn:Hes; simpl.
      - by eapply Hnd.
      - apply NoDup_nil_2. }
    rewrite (sum_list_with_ext _
               (λ u, if bool_decide (s ∈ default [] (entrymap !! t)
                                     ∧ u ∈ tags
                                     ∧ s ∈ default [] (entrymap !! u))
                     then 1%nat else 0%nat)).
    2:{ intros u _. case_bool_decide as Hu.
        - case_decide as Htu.
          + subst u. rewrite occurrences_NoDup by done.
            apply (f_equal (λ b : bool, if b then 1%nat else 0%nat)).
            apply bool_decide_ext. tauto.
          + apply (f_equal (λ b : bool, if b then 1%nat else 0%nat)).
            apply bool_decide_ext. tauto.
        - rewrite bool_decide_eq_false_2; [done|]. tauto. }
    case_bool_decide as Hst.
    - rewrite (sum_list_with_ext _
                 (λ u, if bool_decide (u ∈ tags
                                       ∧ s ∈ default [] (entrymap !! u))
                       then 1%nat else 0%nat)).
      2:{ intros u _.
          apply (f_equal (λ b : bool, if b then 1%nat else 0%nat)).
          apply bool_decide_ext. tauto. }
      rewrite sum_list_with_indicator, Nat.mul_1_l.
      unfold k, shared_tags. apply Permutation_length.
      apply NoDup_Permutation.
      + apply NoDup_filter, NoDup_sorted_keys.
      + by apply NoDup_filter.
      + intros u. rewrite !list_elem_of_filter, elem_of_sorted_keys.
        split.
        * intros [[? ?] _]. done.
        * intros [Hsu Hu]. split; [done|].
          destruct (entrymap !! u); [done|].
          simpl in Hsu. by apply elem_of_nil in Hsu.
    - rewrite (sum_list_with_ext _ (λ _, 0%nat)).
      2:{ intros u _. rewrite bool_decide_eq_false_2; [done|]. tauto. }
      rewrite Nat.mul_0_l.
      induction (sort_strs (keys entrymap)) as [|? ? IH]; [done|].
      exact IH. }
  rewrite (sum_list_with_ext _
             (λ t, (if bool_decide (s ∈ default [] (entrymap !! t))
                    then 1 else 0) * k)%nat).
  2:{ intros t Ht. case_bool_decide as Hcond.
      - by apply Hinner.
      - rewrite bool_decide_eq_false_2; [done|].
        intros Hst. apply Hcond. split; [by apply Hign|].
        destruct (entrymap !! t); [done|].
        simpl in Hst. by apply elem_of_nil in Hst. }
  rewrite sum_list_with_const_mul, sum_list_with_indicator. done.
Qed.

(** X10. For an entry with distinct tags, none of them ignored, and an
    index whose entry lists have no repetition, the votes of every story are
    the square of the number of the entry's tags under which the story is
    filed; so the stories are ranked by the number of tags they share with
    the entry, and the stories with a vote are those sharing a tag. *)
Theorem votes_square (set_to_list : gset string → list string)
    (data : folksonomy_data) (tags ignoretags : list string) :
  (∀ s, set_to_list s ≡ₚ elements s) →
  consistent set_to_list data →
  NoDup tags →
  (∀ t, t ∈ tags → t ∉ ignoretags) →
  (∀ t es, entrytagmap data !! t = Some es → NoDup es) →
  ∃ related,
    related_votes tags ignoretags data = Ok related ∧
    (∀ s, votes_of related s
          = Z.of_nat (shared_tags (entrytagmap data) tags s)
            * Z.of_nat (shared_tags (entrytagmap data) tags s)) ∧
    (∀ s, is_Some (related !! s)
          ↔ ∃ t, t ∈ tags ∧ s ∈ default [] (entrytagmap data !! t)) ∧
    (∀ s1 s2,
       votes_of related s1 ≤ votes_of related s2
       ↔ (shared_tags (entrytagmap data) tags s1
          ≤ shared_tags (entrytagmap data) tags s2)%nat).
Proof.
  intros Hset Hdata Htags Hign Hnd.
  destruct (related_votes_closed set_to_list data tags ignoretags Hset Hdata)
    as (related & Hrun & Hwf & Hvotes).
  assert (∀ s, votes_of related s
               = Z.of_nat (shared_tags (entrytagmap data) tags s)
                 * Z.of_nat (shared_tags (entrytagmap data) tags s)) as Hsq.
  { intros s. rewrite Hvotes, entry_votes_square by done. lia. }
  exists related. split; [done|]. split; [done|]. split.
  - intros s. specialize (Hsq s). unfold votes_of in Hsq.
    assert ((0 < shared_tags (entrytagmap data) tags s)%nat
            ↔ ∃ t, t ∈ tags ∧ s ∈ default [] (entrytagmap data !! t))
      as <-.
    { unfold shared_tags. split.
      - intros Hlen.
        destruct (filter (λ t, s ∈ default [] (entrytagmap data !! t)) tags)
          as [|t l] eqn:Hf; [simpl in Hlen; lia|].
        assert (t ∈ filter (λ t, s ∈ default [] (entrytagmap data !! t))
                      tags) as Hin by (rewrite Hf; left).
        apply list_elem_of_filter in Hin as [Hs Ht]. by exists t.
      - intros (t & Ht & Hs).
        assert (t ∈ filter (λ t, s ∈ default [] (entrytagmap data !! t))
                      tags) as Hin.
        { by apply list_elem_of_filter. }
        destruct (filter (λ t, s ∈ default [] (entrytagmap data !! t)) tags);
          [by apply elem_of_nil in Hin|simpl; lia]. }
    destruct (related !! s) as [r|] eqn:Hs; simpl in Hsq.
    + destruct (Hwf s r Hs) as [_ Hpos]. split; [nia|by eexists].
    + split; [by intros [? ?]|nia].
  - intros s1 s2. rewrite !Hsq. nia.
Qed.

Lemma votes_square_witness :
  ∃ related,
    related_votes ["foo"; "bar"] [] scenario_data = Ok related ∧
    (∀ s, votes_of related s
          = Z.of_nat (shared_tags (entrytagmap scenario_data)
                        ["foo"; "bar"] s)
            * Z.of_nat (shared_tags (entrytagmap scenario_data)
                          ["foo"; "bar"] s)) ∧
    (∀ s, is_Some (related !! s)
          ↔ ∃ t, t ∈ ["foo"; "bar"]
                 ∧ s ∈ default [] (entrytagmap scenario_data !! t)) ∧
    (∀ s1 s2,
       votes_of related s1 ≤ votes_of related s2
       ↔ (shared_tags (entrytagmap scenario_data) ["foo"; "bar"] s1
          ≤ shared_tags (entrytagmap scenario_data) ["foo"; "bar"] s2)%nat).
Proof.
  apply (votes_square elements scenario_data ["foo"; "bar"] []).
  - intros s. reflexivity.
  - split; vm_compute; reflexivity.
  - apply (bool_decide_unpack _). vm_compute. exact I.
  - intros t _. apply not_elem_of_nil.
  - intros t es Hes.
    assert (es ∈ values (entrytagmap scenario_data)) as Hin.
    { unfold values. apply list_elem_of_fmap. exists (t, es).
      split; [done|]. by apply elem_of_map_to_list. }
    revert Hin. generalize es.
    apply Forall_forall. apply (bool_decide_unpack _). vm_compute. exact I.
Defined.

(** ** What [get_related_stories] renders *)

Lemma votes_wf_values (related : gmap string (Z * string)) (n : Z)
    (s : string) :
  votes_wf related →
  (n, s) ∈ values related ↔ related !! s = Some (n, s).
Proof.
  intros Hwf. unfold values. rewrite list_elem_of_fmap. split.
  - intros ([k r] & Heq & Hin). simpl in Heq. subst r.
    apply elem_of_map_to_list in Hin.
    destruct (Hwf k (n, s) Hin) as [Hkey _]. simpl in Hkey. by subst k.
  - intros Hs. exists (s, (n, s)). split; [done|].
    by apply elem_of_map_to_list.
Qed.

Lemma votes_wf_values_NoDup (related : gmap string (Z * string)) :
  votes_wf related → NoDup (values related).
Proof.
  intros Hwf. unfold values. apply NoDup_fmap_2_strong.
  - intros [k r] [k' r'] Hin Hin' Heq. simpl in Heq. subst r'.
    apply elem_of_map_to_list in Hin, Hin'.
    destruct (Hwf k r Hin) as [Hk _]. destruct (Hwf k' r Hin') as [Hk' _].
    by rewrite <- Hk, <- Hk'.
  - apply NoDup_map_to_list.
Qed.

(** X11. On consistent data and with [ignore_tags] configured, the ranked
    stories are the stories with a vote, each once, paired with their votes
    and in descending order of (votes, location). What is shown is the forced
    relations followed by the ranked stories, cut to six locations and
    without the locations of the entry itself. The result is [None] when no
    story has a vote or nothing is left to show; otherwise it is the rendered
    block when [base_url] and [relatedstories_header] are configured, and
    [KeyError] when one of them is missing. *)
Theorem related_stories_rendering (FileEntry : string → file_entry)
    (set_to_list : gset string → list string) (data : folksonomy_data)
    (e : entry) (cfg : config) (ignoretags : list string) :
  (∀ s, set_to_list s ≡ₚ elements s) →
  consistent set_to_list data →
  ignore_tags cfg = Some ignoretags →
  ∃ ranked : list (Z * string),
    (∀ n s,
       (n, s) ∈ ranked
       ↔ 0 < n ∧
         n = Z.of_nat (entry_votes (entrytagmap data)
                         (split_comma (entry_tags e)) ignoretags s)) ∧
    NoDup ranked ∧
    Sorted pair_ge ranked ∧
    get_related_stories FileEntry e data cfg
    = let shown :=
        shown_entries FileEntry e
          (take 6 (forced_entries e cfg ++ ranked.*2)) in
      if bool_decide (ranked = [] ∨ shown = []) then Ok None
      else match base_url cfg, relatedstories_header cfg with
           | Some base, Some header =>
               Ok (Some ("<div id='relatedstories'>" +:+ header +:+ "<p>"
                           +:+ foldr String.append ""
                                 (story_piece FileEntry base <$> shown)
                           +:+ "</p></div>"))
           | _, _ => Raise KeyError
           end.
Proof.
  intros Hset Hdata Hcfg.
  destruct (related_votes_closed set_to_list data
              (split_comma (entry_tags e)) ignoretags Hset Hdata)
    as (related & Hrun & Hwf & Hvotes).
  exists (sort_pairs_desc (values related)).
  assert (sort_pairs_desc (values related) ≡ₚ values related) as Hperm
    by apply merge_sort_Permutation.
  split; [|split; [|split]].
  - intros n s. rewrite Hperm, votes_wf_values by done.
    specialize (Hvotes s). unfold votes_of in Hvotes. split.
    + intros Hs. rewrite Hs in Hvotes. simpl in Hvotes.
      destruct (Hwf s (n, s) Hs) as [_ Hpos]. done.
    + intros [Hpos ->].
      destruct (related !! s) as [[m s']|] eqn:Hs; simpl in Hvotes.
      * destruct (Hwf s (m, s') Hs) as [Heq _]. simpl in Heq.
        by rewrite Hvotes, Heq.
      * lia.
  - rewrite Hperm. by apply votes_wf_values_NoDup.
  - apply sort_pairs_desc_sorted.
  - destruct (decide (related = ∅)) as [->|Hne].
    + rewrite (get_related_stories_no_votes FileEntry e data cfg ignoretags)
        by done.
      cbv zeta. rewrite bool_decide_eq_true_2; [done|]. left.
      apply Permutation_nil_r. rewrite Hperm. unfold values.
      by rewrite map_to_list_empty.
    + rewrite (get_related_stories_shape FileEntry e data cfg ignoretags
                 related) by done.
      cbv zeta.
      assert (sort_pairs_desc (values related) ≠ []) as Hranked.
      { intros Hnil. rewrite Hnil in Hperm. symmetry in Hperm.
        apply Permutation_nil_r in Hperm. unfold values in Hperm.
        apply fmap_nil_inv in Hperm. by apply map_to_list_empty_iff in Hperm. }
      case_bool_decide as Hshown.
      * rewrite bool_decide_eq_true_2; [done|]. by right.
      * rewrite bool_decide_eq_false_2; [done|]. by intros [?|?].
Qed.

Lemma related_stories_rendering_witness :
  ∃ ranked : list (Z * string),
    (∀ n s,
       (n, s) ∈ ranked
       ↔ 0 < n ∧
         n = Z.of_nat (entry_votes (entrytagmap scenario_data)
                         (split_comma (entry_tags scenario_entry)) [] s)) ∧
    NoDup ranked ∧
    Sorted pair_ge ranked ∧
    get_related_stories (λ loc, Build_file_entry loc "" loc loc)
      scenario_entry scenario_data scenario_config
    = let shown :=
        shown_entries (λ loc, Build_file_entry loc "" loc loc)
          scenario_entry
          (take 6 (forced_entries scenario_entry scenario_config
                   ++ ranked.*2)) in
      if bool_decide (ranked = [] ∨ shown = []) then Ok None
      else match base_url scenario_config,
                 relatedstories_header scenario_config with
           | Some base, Some header =>
               Ok (Some ("<div id='relatedstories'>" +:+ header +:+ "<p>"
                           +:+ foldr String.append ""
                                 (story_piece
                                    (λ loc, Build_file_entry loc "" loc loc)
                                    base <$> shown)
                           +:+ "</p></div>"))
           | _, _ => Raise KeyError
           end.
Proof.
  apply (related_stories_rendering (λ loc, Build_file_entry loc "" loc loc)
           elements scenario_data scenario_entry scenario_config []).
  - intros s. reflexivity.
  - split; vm_compute; reflexivity.
  - reflexivity.
Defined.

(** ** The cache *)

(** The build reads [tag_url_display] only through the address of the
    clouds, for which a missing [tag_url_display] stands for [tag_url]. *)
Lemma create_folksonomy_display (set_to_list : gset string → list string)
    (cfg cfg' : config) (corpus : list item) :
  ignore_tags cfg' = ignore_tags cfg →
  ignore_directories cfg' = ignore_directories cfg →
  taggable_files cfg' = taggable_files cfg →
  default (tag_url cfg') (tag_url_display cfg')
  = default (tag_url cfg) (tag_url_display cfg) →
  create_folksonomy set_to_list cfg' corpus
  = create_folksonomy set_to_list cfg corpus.
Proof.
  intros Hign Hdirs Hext Hurl. unfold create_folksonomy.
  assert (build_index cfg' corpus = build_index cfg corpus) as ->.
  { unfold build_index.
    induction corpus as [|it corpus IH] using rev_ind; [done|].
    rewrite !foldl_snoc, IH. unfold index_item.
    by rewrite Hign, Hdirs, Hext. }
  destruct (build_index cfg corpus) as [entrymap maxcount].
  destruct (py_min (len <$> values entrymap)) as [mincount|]; [|done].
  simpl.
  destruct (create_folksonomy_table set_to_list entrymap) as [t|]; [|done].
  simpl. unfold create_popular_tagcloud, create_tagcloud.
  cbv zeta. by rewrite Hurl.
Qed.

(** X12. When [folksonomy_cache] names a file that does not exist or
    cannot be read, [cb_start] ends as the command [buildfolksonomy] does,
    up to the writing of the cache, on the same configuration and walk: both
    raise the same exception, or the data [cb_start] merges into the request
    are the object the command hands to [cPickle.dump] for that file. The
    default of [tag_url_display], which only [cb_start] sets, makes no
    difference. *)
Theorem cache_coherent (set_to_list : gset string → list string)
    (py : site_config) (fs : files) (corpus : list item)
    (cachefile : string) :
  folksonomy_cache py = Some cachefile →
  cachefile ≠ "" →
  fs !! cachefile = None ∨ fs !! cachefile = Some None →
  build_folksonomy set_to_list py corpus
  = r ← cb_start set_to_list py fs corpus; Ok (cachefile, r.2).
Proof.
  intros Hcache Hpath Hmiss.
  unfold build_folksonomy, cb_start, path_exists. rewrite Hcache. simpl.
  rewrite bool_decide_eq_false_2 by done.
  destruct (default_tag_url py) as [tagurl|err]; [|done]. simpl.
  assert (site_create_folksonomy set_to_list py tagurl
            (Some (default tagurl (site_tag_url_display py))) corpus
          = site_create_folksonomy set_to_list py tagurl
              (site_tag_url_display py) corpus) as Hbuild.
  { unfold site_create_folksonomy.
    destruct (site_ignore_directories py) as [dirs|]; [|done]. simpl.
    by apply create_folksonomy_display. }
  rewrite Hbuild.
  destruct Hmiss as [-> | ->]; case_bool_decide;
    by destruct (site_create_folksonomy set_to_list py tagurl
                   (site_tag_url_display py) corpus).
Qed.

Lemma cache_coherent_witness :
  build_folksonomy elements scenario_site scenario_corpus
  = r ← cb_start elements scenario_site ∅ scenario_corpus;
    Ok ("/var/cache/folksonomy", r.2).
Proof.
  apply (cache_coherent elements scenario_site ∅ scenario_corpus
           "/var/cache/folksonomy").
  - reflexivity.
  - apply (bool_decide_unpack _). vm_compute. exact I.
  - left. reflexivity.
Defined.
